(** * UPS power monitor: a shallow embedding of [power_monitor.py]

    The monitor polls a power sensor, and while the sensor reports no mains
    power it walks the cluster through a phased shutdown (cordon, drain,
    power off); when power returns it uncordons the nodes that came back.

    Strings are Python [str] values restricted to code points below 256, one
    [ascii] per code point.  The mutable fields of the [PowerMonitor] object
    are a record threaded through a state monad, together with the state of
    the outside world (cluster API, [kubectl], [ssh], sensor, clock) and the
    chronological list of actuator method calls.  Elapsed time is a
    rational number of seconds, as exact as the microsecond clock. *)

From Stdlib Require Import Ascii String QArith.
From stdpp Require Import gmap strings list.

Set Warnings "-clear-no-such-hyp".

Local Open Scope string_scope.
Local Open Scope Z_scope.
Local Open Scope list_scope.

(** ** Python string builtins on code points below 256 *)

Module PyStr.

Definition code (c : ascii) : N := N_of_ascii c.

Definition between (lo hi : N) (c : ascii) : bool :=
  ((lo <=? code c) && (code c <=? hi))%N.

(** [str.isspace] for one character. *)
Definition isspace (c : ascii) : bool :=
  between 9 13 c || between 28 32 c || between 133 133 c || between 160 160 c.

Fixpoint lstrip (s : string) : string :=
  match s with
  | EmptyString => EmptyString
  | String c s' => if isspace c then lstrip s' else s
  end.

Fixpoint rstrip (s : string) : string :=
  match s with
  | EmptyString => EmptyString
  | String c s' =>
      match rstrip s' with
      | EmptyString => if isspace c then EmptyString else String c EmptyString
      | r => String c r
      end
  end.

(** [s.strip()] *)
Definition strip (s : string) : string := rstrip (lstrip s).

Fixpoint map_chars (f : ascii -> ascii) (s : string) : string :=
  match s with
  | EmptyString => EmptyString
  | String c s' => String (f c) (map_chars f s')
  end.

Definition shift32 (c : ascii) : ascii := ascii_of_N (code c + 32).

(** One character of [str.lower]: A-Z, and the Latin-1 capitals
    U+00C0..U+00DE except the multiplication sign U+00D7. *)
Definition lower_char (c : ascii) : ascii :=
  if between 65 90 c || between 192 214 c || between 216 222 c
  then shift32 c else c.

(** [s.lower()] *)
Definition lower (s : string) : string := map_chars lower_char s.

(** *** [float(s)]

    The value of a decimal literal is kept exact: sign, digits and power of
    ten.  Rounding to binary64 only matters for the comparison with zero,
    which [gt_zero] decides on the exact value. *)

Inductive pyfloat :=
| FNan
| FInf (neg : bool)
| FDec (neg : bool) (digits : N) (exp10 : Z).

(** [float] first maps the string to ASCII: characters from 127 on become a
    space when they are white space and ['?'] otherwise (no decimal digit
    lies in 128..255).  The parser treats letters without regard to case,
    which is folded here. *)
Definition to_ascii_fold (c : ascii) : ascii :=
  if between 65 90 c then shift32 c
  else if (code c <? 127)%N then c
  else if isspace c then " "%char
  else "?"%char.

(** White space of the C locale, as [Py_ISSPACE]. *)
Definition c_isspace (c : ascii) : bool := between 9 13 c || between 32 32 c.

Fixpoint c_lstrip (s : string) : string :=
  match s with
  | EmptyString => EmptyString
  | String c s' => if c_isspace c then c_lstrip s' else s
  end.

Fixpoint c_rstrip (s : string) : string :=
  match s with
  | EmptyString => EmptyString
  | String c s' =>
      match c_rstrip s' with
      | EmptyString => if c_isspace c then EmptyString else String c EmptyString
      | r => String c r
      end
  end.

Definition isdigit (c : ascii) : bool := between 48 57 c.

(** Underscores may only stand between two digits; they are removed.
    [prev] is the previous character. *)
Fixpoint drop_underscores (prev : ascii) (s : string) : option string :=
  match s with
  | EmptyString => if Ascii.eqb prev "_" then None else Some EmptyString
  | String c s' =>
      if Ascii.eqb c "_" then
        if isdigit prev then drop_underscores c s' else None
      else if Ascii.eqb prev "_" && negb (isdigit c) then None
      else String c <$> drop_underscores c s'
  end.

(** Longest prefix of digits: its value, its length, and the rest. *)
Fixpoint take_digits (acc : N) (len : Z) (s : string) : N * Z * string :=
  match s with
  | String c s' =>
      if isdigit c then take_digits (10 * acc + (code c - 48))%N (len + 1) s'
      else (acc, len, s)
  | EmptyString => (acc, len, s)
  end.

Definition take_sign (s : string) : bool * string :=
  match s with
  | String "-" s' => (true, s')
  | String "+" s' => (false, s')
  | _ => (false, s)
  end.

(** The exponent part; the whole rest of the string must be consumed. *)
Definition parse_exponent (s : string) : option Z :=
  match s with
  | EmptyString => Some 0
  | String "e" s1 =>
      let '(neg, s2) := take_sign s1 in
      let '(e, n, s3) := take_digits 0 0 s2 in
      if (n =? 0) || negb (String.eqb s3 "") then None
      else Some (if neg then - Z.of_N e else Z.of_N e)
  | _ => None
  end.

Definition parse_decimal (neg : bool) (s : string) : option pyfloat :=
  let '(ip, ni, s1) := take_digits 0 0 s in
  let '(m, nf, s2) :=
    match s1 with
    | String "." s1' => take_digits ip 0 s1'
    | _ => (ip, 0, s1)
    end in
  if ni + nf =? 0 then None
  else e ← parse_exponent s2; Some (FDec neg m (e - nf)).

Definition parse_float (s : string) : option pyfloat :=
  let '(neg, s1) := take_sign s in
  if String.eqb s1 "inf" || String.eqb s1 "infinity" then Some (FInf neg)
  else if String.eqb s1 "nan" then Some FNan
  else parse_decimal neg s1.

(** [float(s)]; [None] stands for [ValueError]. *)
Definition float (s : string) : option pyfloat :=
  let t := c_rstrip (c_lstrip (map_chars to_ascii_fold s)) in
  u ← drop_underscores "000" t; parse_float u.

(** [x > 0] for [x = float(s)].  A positive decimal rounds to a positive
    binary64 exactly when it exceeds half the least subnormal, [2^-1075]
    (the tie goes to zero); overflow gives [inf]. *)
Definition gt_zero (x : pyfloat) : bool :=
  match x with
  | FNan => false
  | FInf neg => negb neg
  | FDec neg m e =>
      negb neg &&
      (if 0 <=? e then 0 <? Z.of_N m
       else 10 ^ (- e) <? Z.of_N m * 2 ^ 1075)
  end.

(** *** [int(s)], base 10

    As for [float], the string is mapped to ASCII and white space is dropped
    at both ends; then come an optional sign and digits, where single
    underscores may stand between digits.  More than 4300 digits are
    refused (the default of [sys.int_max_str_digits]).  [None] stands for
    [ValueError]. *)
Definition int (s : string) : option Z :=
  let t := c_rstrip (c_lstrip (map_chars to_ascii_fold s)) in
  let '(neg, t1) := take_sign t in
  u ← drop_underscores "000" t1;
  let '(v, n, rest) := take_digits 0 0 u in
  if (n =? 0) || (4300 <? n) || negb (String.eqb rest "") then None
  else Some (if neg then - Z.of_N v else Z.of_N v).

(** [s.split(sep)] for a separator of one character: never an empty list. *)
Fixpoint split (sep : ascii) (s : string) : list string :=
  match s with
  | EmptyString => [EmptyString]
  | String c s' =>
      if Ascii.eqb c sep then EmptyString :: split sep s'
      else match split sep s' with
           | piece :: pieces => String c piece :: pieces
           | [] => [String c EmptyString]
           end
  end.

(** [sep.join(pieces)] *)
Fixpoint join (sep : ascii) (pieces : list string) : string :=
  match pieces with
  | [] => EmptyString
  | [piece] => piece
  | piece :: pieces' => piece +:+ String sep (join sep pieces')
  end.

End PyStr.

(** ** Configuration, cluster objects and the outside world *)

(** The fields [__init__] reads from the environment. Durations are whole
    seconds ([int(os.getenv(...))]); the node lists are the raw pieces of
    [split(',')], stripped only where they are used. *)
Record Config := {
  poll_interval : Z;
  shutdown_pi5_01_delay : Z;
  shutdown_others_delay : Z;
  critical_node : string;
  priority_shutdown_nodes : list string;
  secondary_shutdown_nodes : list string;
  ssh_user : string;
  ssh_key_path : string;
  dry_run : bool;
  test_mode : string;
  skip_shutdown : bool
}.

(** The defaults of [os.getenv]. *)
Definition default_config : Config := {|
  poll_interval := 15;
  shutdown_pi5_01_delay := 180;
  shutdown_others_delay := 420;
  critical_node := "pi4-02";
  priority_shutdown_nodes := ["pi5-01"];
  secondary_shutdown_nodes := ["pi4-01"; "pi5-02"];
  ssh_user := "jarrodservilla";
  ssh_key_path := "/root/.ssh/id_rsa";
  dry_run := false;
  test_mode := "none";
  skip_shutdown := false
|}.

(** A node as the cluster API returns it: [metadata.name],
    [status.addresses] and [status.conditions] as (type, value) pairs, and
    the truth value of [spec.unschedulable]. *)
Record V1Node := {
  node_name : string;
  addresses : list (string * string);
  conditions : list (string * string);
  unschedulable : bool
}.

(** The mutable fields of [PowerMonitor]; [power_outage_start] is a time
    stamp in microseconds. *)
Record PowerMonitor := {
  power_outage_start : option Z;
  shutdown_initiated : bool;
  nodes_shutdown : gset string
}.

Definition initial_monitor : PowerMonitor :=
  {| power_outage_start := None; shutdown_initiated := false; nodes_shutdown := ∅ |}.

(** The methods that act on a node, and one entry of the call log: the
    method, the node name it was called with, and what it returned. *)
Inductive action := Cordon | Uncordon | Drain | PowerOff.

Record event := Ev { ev_action : action; ev_node : string; ev_ok : bool }.

Global Instance action_eq_dec : EqDecision action.
Proof. solve_decision. Defined.

Global Instance event_eq_dec : EqDecision event.
Proof. solve_decision. Defined.

(** The collaborators. Each operation takes the state of the world and
    returns its answer with the next state; [None] (or [false] for
    [patch_node]) stands for a raised exception. *)
Class World (W : Type) := {
  (** [requests.get(...).json()]: the entity as a dictionary, its entries
      read as strings (Home Assistant reports the state as a string);
      [None] on [RequestException]. *)
  http_get_state : W -> option (gmap string string) * W;
  (** [k8s_core.patch_node(name, {"spec": {"unschedulable": b}})] *)
  patch_node : string -> bool -> W -> bool * W;
  (** [k8s_core.read_node(name)] *)
  read_node : string -> W -> option V1Node * W;
  (** [k8s_core.list_node().items] *)
  list_node : W -> option (list V1Node) * W;
  (** [subprocess.run(['kubectl', 'drain', name, ...])]: the return code. *)
  kubectl_drain : string -> W -> option Z * W;
  (** [subprocess.run(['ssh', ..., '-i', key, dest, 'sudo shutdown -h now'])] *)
  ssh_shutdown : string -> string -> W -> option Z * W;
  (** [datetime.now()], in microseconds. *)
  clock_now : W -> Z * W;
  (** [time.sleep(seconds)] *)
  sleep : Z -> W -> W
}.

(** ** The monitor *)

Section Monitor.

Context {W : Type} `{World W}.

Record Sys := {
  pm : PowerMonitor;
  world : W;
  trace : list event
}.

Definition M (A : Type) : Type := Sys -> A * Sys.

Global Instance M_ret : MRet M := λ A a s, (a, s).
Global Instance M_bind : MBind M := λ A B f m s, let '(a, s') := m s in f a s'.

Definition get_self : M PowerMonitor := λ s, (pm s, s).

Definition set_self (p : PowerMonitor) : M unit :=
  λ s, (tt, {| pm := p; world := world s; trace := trace s |}).

(** A call to a collaborator. *)
Definition ext {A} (f : W -> A * W) : M A :=
  λ s, let '(a, w) := f (world s) in
       (a, {| pm := pm s; world := w; trace := trace s |}).

(** An actuator method returns: the call is appended to the log. *)
Definition returns (a : action) (node_name : string) (ok : bool) : M bool :=
  λ s, (ok, {| pm := pm s; world := world s;
               trace := trace s ++ [Ev a node_name ok] |}).

Definition set_power_outage_start (v : option Z) : M unit :=
  p ← get_self;
  set_self {| power_outage_start := v;
              shutdown_initiated := shutdown_initiated p;
              nodes_shutdown := nodes_shutdown p |}.

Definition set_shutdown_initiated (v : bool) : M unit :=
  p ← get_self;
  set_self {| power_outage_start := power_outage_start p;
              shutdown_initiated := v;
              nodes_shutdown := nodes_shutdown p |}.

Definition set_nodes_shutdown (v : gset string) : M unit :=
  p ← get_self;
  set_self {| power_outage_start := power_outage_start p;
              shutdown_initiated := shutdown_initiated p;
              nodes_shutdown := v |}.

(** [self.nodes_shutdown.add(node_name)] *)
Definition nodes_shutdown_add (node_name : string) : M unit :=
  p ← get_self; set_nodes_shutdown ({[node_name]} ∪ nodes_shutdown p).

(** [for x in l: body(x)]; [continue] is [mret tt]. *)
Fixpoint for_each {A} (l : list A) (body : A -> M unit) : M unit :=
  match l with
  | [] => mret tt
  | x :: l' => body x ;; for_each l' body
  end.

Variable cfg : Config.

Definition get_power_status : M (option (gmap string string)) :=
  ext http_get_state.

Definition is_power_available (sensor_data : option (gmap string string)) : bool :=
  if String.eqb (test_mode cfg) "simulate_outage" then false
  else match sensor_data with
  | None => false
  | Some d =>
      if bool_decide (d = ∅) then false
      else
        let state := PyStr.lower (default "" (d !! "state")) in
        if bool_decide (state ∈ ["unavailable"; "unknown"; "none"]) then false
        else match PyStr.float state with
             | Some power => PyStr.gt_zero power
             | None => false
             end
  end.

Definition cordon_node (node_name : string) : M bool :=
  if dry_run cfg then returns Cordon node_name true
  else
    ok ← ext (patch_node node_name true);
    returns Cordon node_name ok.

Definition uncordon_node (node_name : string) : M bool :=
  if dry_run cfg then returns Uncordon node_name true
  else
    ok ← ext (patch_node node_name false);
    returns Uncordon node_name ok.

Definition drain_node (node_name : string) : M bool :=
  if dry_run cfg then returns Drain node_name true
  else
    result ← ext (kubectl_drain node_name);
    match result with
    | Some returncode =>
        if returncode =? 0 then returns Drain node_name true
        else returns Drain node_name false
    | None => returns Drain node_name false
    end.

(** The address of the first [InternalIP] entry. *)
Fixpoint internal_ip (l : list (string * string)) : option string :=
  match l with
  | [] => None
  | (type, address) :: l' =>
      if String.eqb type "InternalIP" then Some address else internal_ip l'
  end.

Definition shutdown_node (node_name : string) : M bool :=
  if dry_run cfg || skip_shutdown cfg then
    nodes_shutdown_add node_name ;;
    returns PowerOff node_name true
  else
    node ← ext (read_node node_name);
    match node with
    | None => returns PowerOff node_name false
    | Some node =>
        match internal_ip (addresses node) with
        | None | Some "" => returns PowerOff node_name false
        | Some node_ip =>
            result ← ext (ssh_shutdown (ssh_key_path cfg)
                            (ssh_user cfg +:+ "@" +:+ node_ip));
            match result with
            | Some _ =>
                nodes_shutdown_add node_name ;;
                returns PowerOff node_name true
            | None => returns PowerOff node_name false
            end
        end
    end.

(** [elapsed_time >= threshold], the threshold a whole number of seconds. *)
Definition reached (threshold : Z) (elapsed_time : Q) : bool :=
  Qle_bool (inject_Z threshold) elapsed_time.

Definition execute_shutdown_sequence (elapsed_time : Q) : M unit :=
  (* Phase 1 *)
  self ← get_self;
  (if reached 30 elapsed_time && negb (shutdown_initiated self) then
     set_shutdown_initiated true ;;
     for_each (priority_shutdown_nodes cfg) (λ node,
       let node := PyStr.strip node in
       if String.eqb node (critical_node cfg) then mret tt
       else cordon_node node ;; mret tt)
   else mret tt) ;;
  (* Phase 2 *)
  (if reached 60 elapsed_time then
     for_each (priority_shutdown_nodes cfg) (λ node,
       let node := PyStr.strip node in
       self ← get_self;
       if String.eqb node (critical_node cfg)
          || bool_decide (node ∈ nodes_shutdown self) then mret tt
       else drain_node node ;; mret tt)
   else mret tt) ;;
  (* Phase 3 *)
  (if reached (shutdown_pi5_01_delay cfg) elapsed_time then
     for_each (priority_shutdown_nodes cfg) (λ node,
       let node := PyStr.strip node in
       self ← get_self;
       if String.eqb node (critical_node cfg)
          || bool_decide (node ∈ nodes_shutdown self) then mret tt
       else shutdown_node node ;; mret tt)
   else mret tt) ;;
  (* Phase 4 *)
  (if reached 300 elapsed_time then
     for_each (secondary_shutdown_nodes cfg) (λ node,
       let node := PyStr.strip node in
       self ← get_self;
       if String.eqb node (critical_node cfg)
          || bool_decide (node ∈ nodes_shutdown self) then mret tt
       else cordon_node node ;; drain_node node ;; mret tt)
   else mret tt) ;;
  (* Phase 5 *)
  (if reached (shutdown_others_delay cfg) elapsed_time then
     for_each (secondary_shutdown_nodes cfg) (λ node,
       let node := PyStr.strip node in
       self ← get_self;
       if String.eqb node (critical_node cfg)
          || bool_decide (node ∈ nodes_shutdown self) then mret tt
       else shutdown_node node ;; mret tt)
   else mret tt).

(** [condition.type == 'Ready' and condition.status == 'True'] for some
    condition of the node. *)
Definition is_ready (node : V1Node) : bool :=
  existsb (λ c, String.eqb c.1 "Ready" && String.eqb c.2 "True") (conditions node).

Definition restore_power_procedures : M unit :=
  ext (λ w, (tt, sleep 60 w)) ;;
  nodes ← ext list_node;
  match nodes with
  | Some items =>
      for_each items (λ node,
        let node_name := node_name node in
        if String.eqb node_name (critical_node cfg) then mret tt
        else if is_ready node && unschedulable node then
          uncordon_node node_name ;; mret tt
        else mret tt)
  | None => mret tt
  end ;;
  (* Reset state *)
  set_power_outage_start None ;;
  set_shutdown_initiated false ;;
  set_nodes_shutdown ∅.

(** [(now - start).total_seconds()] *)
Definition total_seconds (now start : Z) : Q := Qmake (now - start) 1000000.

(** One pass through the body of the [while True] loop of [run]. *)
Definition run_once : M unit :=
  sensor_data ← get_power_status;
  let power_available := is_power_available sensor_data in
  (if power_available then
     self ← get_self;
     match power_outage_start self with
     | Some start =>
         now ← ext clock_now;
         let outage_duration := total_seconds now start in
         if shutdown_initiated self || bool_decide (nodes_shutdown self ≠ ∅) then
           restore_power_procedures
         else
           set_power_outage_start None ;;
           set_shutdown_initiated false
     | None => mret tt
     end
   else
     self ← get_self;
     start ← match power_outage_start self with
             | None =>
                 now ← ext clock_now;
                 set_power_outage_start (Some now) ;;
                 mret now
             | Some start => mret start
             end;
     now ← ext clock_now;
     let elapsed := total_seconds now start in
     execute_shutdown_sequence elapsed) ;;
  ext (λ w, (tt, sleep (poll_interval cfg) w)).

(** [n] passes of the loop. *)
Fixpoint run (n : nat) : M unit :=
  match n with
  | O => mret tt
  | S n' => run_once ;; run n'
  end.

End Monitor.

Arguments Sys W : clear implicits.
Arguments M W A : clear implicits.

(** ** The call log of a poll

    What a poll does to the monitor is determined by the calls it logs: a
    node enters [nodes_shutdown] exactly when [shutdown_node] returns
    [True] for it.  The loops of [execute_shutdown_sequence] are instances
    of one sweep over a roster, described here on the level of the log. *)

Definition mark (ev : event) (sd : gset string) : gset string :=
  match ev with
  | Ev PowerOff n true => {[n]} ∪ sd
  | _ => sd
  end.

Definition replay (sd : gset string) (evs : list event) : gset string :=
  foldl (λ sd ev, mark ev sd) sd evs.

(** The calls made for one node: the methods [acts], in order, on [n]. *)
Definition visit (acts : list action) (n : string) (evs : list event) : Prop :=
  map ev_action evs = acts ∧ Forall (λ ev, ev_node ev = n) evs.

(** The calls of one loop over the roster [l]: every entry is stripped,
    skipped when it names the critical node [c] or (in a [guarded] loop)
    a node already shut down, and visited otherwise. *)
Fixpoint sweep (c : string) (guarded : bool) (acts : list action)
    (l : list string) (sd : gset string) (evs : list event) : Prop :=
  match l with
  | [] => evs = []
  | x :: l' =>
      let n := PyStr.strip x in
      if String.eqb n c || (guarded && bool_decide (n ∈ sd))
      then sweep c guarded acts l' sd evs
      else ∃ evs1 evs2, evs = evs1 ++ evs2 ∧ visit acts n evs1 ∧
             sweep c guarded acts l' (replay sd evs1) evs2
  end.

(** The five phases of [execute_shutdown_sequence]: the threshold of the
    [if], the roster of the [for], whether the loop skips the nodes in
    [nodes_shutdown], and the methods called on a node. *)
Inductive phase := Phase1 | Phase2 | Phase3 | Phase4 | Phase5.

Definition threshold (cfg : Config) (ph : phase) : Z :=
  match ph with
  | Phase1 => 30
  | Phase2 => 60
  | Phase3 => shutdown_pi5_01_delay cfg
  | Phase4 => 300
  | Phase5 => shutdown_others_delay cfg
  end.

Definition roster (cfg : Config) (ph : phase) : list string :=
  match ph with
  | Phase1 | Phase2 | Phase3 => priority_shutdown_nodes cfg
  | Phase4 | Phase5 => secondary_shutdown_nodes cfg
  end.

Definition phase_guarded (ph : phase) : bool :=
  match ph with Phase1 => false | _ => true end.

Definition phase_acts (ph : phase) : list action :=
  match ph with
  | Phase1 => [Cordon]
  | Phase2 => [Drain]
  | Phase3 | Phase5 => [PowerOff]
  | Phase4 => [Cordon; Drain]
  end.

(** The condition of the [if] that opens a phase. *)
Definition phase_due (cfg : Config) (ph : phase) (elapsed : Q) (init : bool) : bool :=
  match ph with
  | Phase1 => reached (threshold cfg ph) elapsed && negb init
  | _ => reached (threshold cfg ph) elapsed
  end.

(** The calls of one phase entered with [nodes_shutdown = sd]. *)
Definition phase_events (cfg : Config) (ph : phase) (due : bool)
    (sd : gset string) (evs : list event) : Prop :=
  if due
  then sweep (critical_node cfg) (phase_guarded ph) (phase_acts ph) (roster cfg ph) sd evs
  else evs = [].

(** The calls of one run of [execute_shutdown_sequence] entered with
    [shutdown_initiated = init] and [nodes_shutdown = sd]. *)
Definition poll_events (cfg : Config) (elapsed : Q) (init : bool)
    (sd : gset string) (evs : list event) : Prop :=
  ∃ e1 e2 e3 e4 e5,
    evs = e1 ++ e2 ++ e3 ++ e4 ++ e5 ∧
    phase_events cfg Phase1 (phase_due cfg Phase1 elapsed init) sd e1 ∧
    phase_events cfg Phase2 (phase_due cfg Phase2 elapsed init) (replay sd e1) e2 ∧
    phase_events cfg Phase3 (phase_due cfg Phase3 elapsed init)
      (replay sd (e1 ++ e2)) e3 ∧
    phase_events cfg Phase4 (phase_due cfg Phase4 elapsed init)
      (replay sd (e1 ++ e2 ++ e3)) e4 ∧
    phase_events cfg Phase5 (phase_due cfg Phase5 elapsed init)
      (replay sd (e1 ++ e2 ++ e3 ++ e4)) e5.

(** The calls of a sequence of polls of one outage, at the given elapsed
    times. *)
Fixpoint epoch_events (cfg : Config) (es : list Q) (init : bool) (sd : gset string)
    (evs : list event) : Prop :=
  match es with
  | [] => evs = []
  | e :: es' => ∃ e1 e2, evs = e1 ++ e2 ∧ poll_events cfg e init sd e1 ∧
      epoch_events cfg es' (init || reached 30 e) (replay sd e1) e2
  end.

(** Once a node is in the shut-down set, the only call it can still
    receive is the cordon of phase 1, whose loop does not test the set. *)
Fixpoint latched (sd : gset string) (evs : list event) : Prop :=
  match evs with
  | [] => True
  | ev :: evs' => (ev_node ev ∈ sd -> ev_action ev = Cordon) ∧ latched (mark ev sd) evs'
  end.

(** The nodes on which method [a] was called. *)
Definition called (a : action) (evs : list event) : gset string :=
  list_to_set (ev_node <$> filter (λ ev, ev_action ev = a) evs).

(** Every drain comes after a cordon of the node and every power-off after
    a drain of it; [C] and [D] are the nodes cordoned and drained before. *)
Fixpoint staged (C D : gset string) (evs : list event) : Prop :=
  match evs with
  | [] => True
  | Ev a n _ :: evs' =>
      match a with
      | Cordon => staged ({[n]} ∪ C) D evs'
      | Drain => n ∈ C ∧ staged C ({[n]} ∪ D) evs'
      | PowerOff => n ∈ D ∧ staged C D evs'
      | Uncordon => staged C D evs'
      end
  end.

(** The nodes the loop of a phase acts on: the stripped roster entries
    other than the critical node. *)
Definition tracked (cfg : Config) (ph : phase) (n : string) : Prop :=
  n ∈ (PyStr.strip <$> roster cfg ph) ∧ n ≠ critical_node cfg.



Definition spares_critical (cfg : Config) (ev : event) : Prop :=
  ev_node ev ≠ critical_node cfg.

(** The nodes recovery uncordons: not the critical node, ready, and
    unschedulable. *)
Definition recoverable (cfg : Config) (node : V1Node) : Prop :=
  node_name node ≠ critical_node cfg ∧ is_ready node = true ∧
  unschedulable node = true.

Global Instance recoverable_dec cfg node : Decision (recoverable cfg node).
Proof. unfold recoverable. apply _. Defined.

Definition call_of (ev : event) : action * string := (ev_action ev, ev_node ev).

Definition with_test_mode (mode : string) (cfg : Config) : Config := {|
  poll_interval := poll_interval cfg;
  shutdown_pi5_01_delay := shutdown_pi5_01_delay cfg;
  shutdown_others_delay := shutdown_others_delay cfg;
  critical_node := critical_node cfg;
  priority_shutdown_nodes := priority_shutdown_nodes cfg;
  secondary_shutdown_nodes := secondary_shutdown_nodes cfg;
  ssh_user := ssh_user cfg;
  ssh_key_path := ssh_key_path cfg;
  dry_run := dry_run cfg;
  test_mode := mode;
  skip_shutdown := skip_shutdown cfg
|}.

Definition with_delays (priority secondary : Z) (cfg : Config) : Config := {|
  poll_interval := poll_interval cfg;
  shutdown_pi5_01_delay := priority;
  shutdown_others_delay := secondary;
  critical_node := critical_node cfg;
  priority_shutdown_nodes := priority_shutdown_nodes cfg;
  secondary_shutdown_nodes := secondary_shutdown_nodes cfg;
  ssh_user := ssh_user cfg;
  ssh_key_path := ssh_key_path cfg;
  dry_run := dry_run cfg;
  test_mode := test_mode cfg;
  skip_shutdown := skip_shutdown cfg
|}.

Definition with_modes (dry skip : bool) (cfg : Config) : Config := {|
  poll_interval := poll_interval cfg;
  shutdown_pi5_01_delay := shutdown_pi5_01_delay cfg;
  shutdown_others_delay := shutdown_others_delay cfg;
  critical_node := critical_node cfg;
  priority_shutdown_nodes := priority_shutdown_nodes cfg;
  secondary_shutdown_nodes := secondary_shutdown_nodes cfg;
  ssh_user := ssh_user cfg;
  ssh_key_path := ssh_key_path cfg;
  dry_run := dry;
  test_mode := test_mode cfg;
  skip_shutdown := skip
|}.

Definition with_critical_node (name : string) (cfg : Config) : Config := {|
  poll_interval := poll_interval cfg;
  shutdown_pi5_01_delay := shutdown_pi5_01_delay cfg;
  shutdown_others_delay := shutdown_others_delay cfg;
  critical_node := name;
  priority_shutdown_nodes := priority_shutdown_nodes cfg;
  secondary_shutdown_nodes := secondary_shutdown_nodes cfg;
  ssh_user := ssh_user cfg;
  ssh_key_path := ssh_key_path cfg;
  dry_run := dry_run cfg;
  test_mode := test_mode cfg;
  skip_shutdown := skip_shutdown cfg
|}.

Section Refinement.

Context {W : Type} `{World W}.
Variable cfg : Config.

(** [s'] is [s] after the calls [evs]: the log grew by [evs], the shut-down
    set is replayed from them, and the other fields are untouched. *)
Record stepped (s : Sys W) (evs : list event) (s' : Sys W) : Prop := {
  stepped_trace : trace s' = trace s ++ evs;
  stepped_start : power_outage_start (pm s') = power_outage_start (pm s);
  stepped_initiated : shutdown_initiated (pm s') = shutdown_initiated (pm s);
  stepped_shutdown : nodes_shutdown (pm s') = replay (nodes_shutdown (pm s)) evs
}.

(** The method behind each action. *)
Definition act (a : action) : string -> M W bool :=
  match a with
  | Cordon => cordon_node cfg
  | Uncordon => uncordon_node cfg
  | Drain => drain_node cfg
  | PowerOff => shutdown_node cfg
  end.

Fixpoint act_all (acts : list action) (n : string) : M W unit :=
  match acts with
  | [] => mret tt
  | a :: acts' => act a n ;; act_all acts' n
  end.

Definition sweep_loop (guarded : bool) (acts : list action) (l : list string) : M W unit :=
  for_each l (λ node,
    let node := PyStr.strip node in
    self ← get_self;
    if String.eqb node (critical_node cfg)
       || (guarded && bool_decide (node ∈ nodes_shutdown self)) then mret tt
    else act_all acts node).

Definition phase_loop (ph : phase) : M W unit :=
  sweep_loop (phase_guarded ph) (phase_acts ph) (roster cfg ph).

Definition when (b : bool) (m : M W unit) : M W unit := if b then m else mret tt.

(** The loop of phase 1 as the source has it: no test of [nodes_shutdown]. *)
Definition phase1_loop : M W unit :=
  for_each (priority_shutdown_nodes cfg) (λ node,
    let node := PyStr.strip node in
    if String.eqb node (critical_node cfg) then mret tt
    else cordon_node cfg node ;; mret tt).

Definition exec {A} (m : M W A) (s : Sys W) : Sys W := (m s).2.

(** The events a computation appended to the log. *)
Definition new_events (s s' : Sys W) : list event :=
  drop (length (trace s)) (trace s').

(** *** Polls of one outage

    Between two polls the world changes on its own, so every poll comes
    with the elapsed time and the world it finds. *)
Definition with_world (w : W) (s : Sys W) : Sys W :=
  {| pm := pm s; world := w; trace := trace s |}.

Definition poll (p : Q * W) (s : Sys W) : Sys W :=
  exec (execute_shutdown_sequence cfg p.1) (with_world p.2 s).

Definition epoch (ps : list (Q * W)) (s : Sys W) : Sys W :=
  foldl (λ s p, poll p s) s ps.

(** The monitor when an outage has just been detected. *)
Definition outage_onset (start : Z) (w : W) : Sys W :=
  {| pm := {| power_outage_start := Some start;
              shutdown_initiated := false;
              nodes_shutdown := ∅ |};
     world := w; trace := [] |}.

(** Whatever state [m] is run in, every call it logs satisfies [P]. *)
Definition logs {A} (P : event -> Prop) (m : M W A) : Prop :=
  ∀ s, ∃ evs, trace (m s).2 = trace s ++ evs ∧ Forall P evs.

(** *** The statements the specification makes about the polls of an
    outage, as it words them *)

(** A transition that has succeeded in one poll is not called again by a
    later poll of the outage. *)
Definition fires_once (a : action) : Prop :=
  ∀ start w ps1 p ps2 n ok,
    let s1 := epoch ps1 (outage_onset start w) in
    let s2 := poll p s1 in
    let s3 := epoch ps2 s2 in
    Ev a n true ∈ new_events s1 s2 -> Ev a n ok ∉ new_events s2 s3.

(** A transition of phase [ph] that has failed in one poll is attempted
    again by the next poll at which the threshold of the phase is met. *)
Definition retried_after_failure (ph : phase) : Prop :=
  ∀ start w ps p p' a n,
    let s1 := epoch ps (outage_onset start w) in
    let s2 := poll p s1 in
    let s3 := poll p' s2 in
    a ∈ phase_acts ph -> tracked cfg ph n ->
    Ev a n false ∈ new_events s1 s2 ->
    reached (threshold cfg ph) p'.1 = true ->
    ∃ ok, Ev a n ok ∈ new_events s2 s3.


End Refinement.

(** *** The transitions that are due

    A transition is a method and a node.  It is due at [elapsed] when the
    [if] of its phase holds and the loop does not skip the node, both read
    in the state the poll is entered with. *)
Definition skipped (cfg : Config) (ph : phase) (sd : gset string) (n : string) : bool :=
  String.eqb n (critical_node cfg) || (phase_guarded ph && bool_decide (n ∈ sd)).

Definition phase_transitions (cfg : Config) (ph : phase) (sd : gset string)
    : list (action * string) :=
  n ← filter (λ n, skipped cfg ph sd n = false) (PyStr.strip <$> roster cfg ph);
  (λ a, (a, n)) <$> phase_acts ph.

Definition due_transitions (cfg : Config) (elapsed : Q) (init : bool)
    (sd : gset string) : list (action * string) :=
  ph ← [Phase1; Phase2; Phase3; Phase4; Phase5];
  if phase_due cfg ph elapsed init then phase_transitions cfg ph sd else [].

(** *** The thresholds as the specification words them *)
Module Spec.



End Spec.



(** ** A simulated world

    A small cluster to run the monitor on: the cluster API and [kubectl]
    fail for the first [sim_failures] calls and succeed afterwards, [ssh]
    always returns with exit status [sim_ssh_rc]. *)
Module Sim.

Record state := {
  sim_sensor : option (gmap string string);
  sim_nodes : list V1Node;
  sim_failures : nat;
  sim_ssh_rc : Z;
  sim_time : Z
}.

Definition set_unschedulable (name : string) (b : bool) (node : V1Node) : V1Node :=
  if String.eqb (node_name node) name
  then {| node_name := node_name node; addresses := addresses node;
          conditions := conditions node; unschedulable := b |}
  else node.

Definition api_call {A} (failed ok : A) (update : list V1Node -> list V1Node)
    (w : state) : A * state :=
  match sim_failures w with
  | S k => (failed, {| sim_sensor := sim_sensor w; sim_nodes := sim_nodes w;
                       sim_failures := k; sim_ssh_rc := sim_ssh_rc w;
                       sim_time := sim_time w |})
  | O => (ok, {| sim_sensor := sim_sensor w; sim_nodes := update (sim_nodes w);
                 sim_failures := O; sim_ssh_rc := sim_ssh_rc w;
                 sim_time := sim_time w |})
  end.

Global Instance world : World state := {|
  http_get_state w := (sim_sensor w, w);
  patch_node name b := api_call false true (map (set_unschedulable name b));
  read_node name w :=
    (List.find (λ node, String.eqb (node_name node) name) (sim_nodes w), w);
  list_node w := (Some (sim_nodes w), w);
  kubectl_drain name := api_call (Some 1) (Some 0) id;
  ssh_shutdown key dest w := (Some (sim_ssh_rc w), w);
  clock_now w := (sim_time w, w);
  sleep seconds w :=
    {| sim_sensor := sim_sensor w; sim_nodes := sim_nodes w;
       sim_failures := sim_failures w; sim_ssh_rc := sim_ssh_rc w;
       sim_time := sim_time w + seconds * 1000000 |}
|}.

Definition node (name ip : string) (ready unsched : bool) : V1Node := {|
  node_name := name;
  addresses := [("Hostname", name); ("InternalIP", ip)];
  conditions := [("MemoryPressure", "False");
                 ("Ready", if ready then "True" else "False")];
  unschedulable := unsched
|}.

(** The four nodes of the default configuration, all up. *)
Definition cluster : list V1Node :=
  [node "pi4-01" "10.0.0.1" true false; node "pi4-02" "10.0.0.2" true false;
   node "pi5-01" "10.0.0.3" true false; node "pi5-02" "10.0.0.4" true false].

Definition healthy : state := {|
  sim_sensor := Some {["state" := "4.2"]};
  sim_nodes := cluster;
  sim_failures := 0;
  sim_ssh_rc := 0;
  sim_time := 0
|}.

(** The same cluster with the first [k] API calls failing. *)
Definition failing (k : nat) : state := {|
  sim_sensor := Some {["state" := "unavailable"]};
  sim_nodes := cluster;
  sim_failures := k;
  sim_ssh_rc := 0;
  sim_time := 0
|}.

(** The same world with the sensor reading power again. *)
Definition power_back (w : state) : state := {|
  sim_sensor := Some {["state" := "4.2"]};
  sim_nodes := sim_nodes w;
  sim_failures := sim_failures w;
  sim_ssh_rc := sim_ssh_rc w;
  sim_time := sim_time w
|}.

(** The cluster when power is back: every node but the last was cordoned
    during the outage, and [pi5-01] has not come up yet. *)
Definition after_outage : state := {|
  sim_sensor := Some {["state" := "4.2"]};
  sim_nodes :=
    [node "pi4-01" "10.0.0.1" true true; node "pi4-02" "10.0.0.2" true true;
     node "pi5-01" "10.0.0.3" false true; node "pi5-02" "10.0.0.4" true false];
  sim_failures := 0;
  sim_ssh_rc := 0;
  sim_time := 0
|}.

(** The cluster with an [ssh] that returns exit status 255. *)
Definition ssh_fails : state := {|
  sim_sensor := Some {["state" := "unavailable"]};
  sim_nodes := cluster;
  sim_failures := 0;
  sim_ssh_rc := 255;
  sim_time := 0
|}.

End Sim.

(** ** Start-up *)

(** What [__init__] keeps for the sensor transport. *)
Record HomeAssistant := {
  ha_url : string;
  ha_token : string;
  power_sensor : string
}.

(** How [PowerMonitor()] ends: the object is built, the process leaves
    through [sys.exit], or [int] raises [ValueError]. *)
Inductive startup :=
| Started (cfg : Config) (ha : HomeAssistant)
| Exit (code : Z)
| ValueError.

(** [os.getenv(name, fallback)] *)
Definition getenv (environ : gmap string string) (name fallback : string) : string :=
  default fallback (environ !! name).

(** [PowerMonitor.__init__]; [in_cluster] tells whether
    [config.load_incluster_config()] and [client.CoreV1Api()] return. The
    state-tracking fields start as [initial_monitor]. *)
Definition __init__ (environ : gmap string string) (in_cluster : bool) : startup :=
  let ha_url := getenv environ "HA_URL" "http://localhost:8123" in
  let ha_token := environ !! "HA_TOKEN" in
  let power_sensor := getenv environ "POWER_SENSOR" "sensor.smart_plug_power" in
  match PyStr.int (getenv environ "POLL_INTERVAL" "15") with
  | None => ValueError
  | Some poll_interval =>
  match PyStr.int (getenv environ "SHUTDOWN_PI5_01_DELAY" "180") with
  | None => ValueError
  | Some shutdown_pi5_01_delay =>
  match PyStr.int (getenv environ "SHUTDOWN_OTHERS_DELAY" "420") with
  | None => ValueError
  | Some shutdown_others_delay =>
      let cfg := {|
        poll_interval := poll_interval;
        shutdown_pi5_01_delay := shutdown_pi5_01_delay;
        shutdown_others_delay := shutdown_others_delay;
        critical_node := getenv environ "CRITICAL_NODE" "pi4-02";
        priority_shutdown_nodes :=
          PyStr.split "," (getenv environ "PRIORITY_NODES" "pi5-01");
        secondary_shutdown_nodes :=
          PyStr.split "," (getenv environ "SECONDARY_NODES" "pi4-01,pi5-02");
        ssh_user := getenv environ "SSH_USER" "jarrodservilla";
        ssh_key_path := getenv environ "SSH_KEY_PATH" "/root/.ssh/id_rsa";
        dry_run := String.eqb (PyStr.lower (getenv environ "DRY_RUN" "false")) "true";
        test_mode := PyStr.lower (getenv environ "TEST_MODE" "none");
        skip_shutdown :=
          String.eqb (PyStr.lower (getenv environ "SKIP_SHUTDOWN" "false")) "true"
      |} in
      match ha_token with
      | None | Some "" => Exit 1
      | Some token =>
          if in_cluster
          then Started cfg {| ha_url := ha_url; ha_token := token;
                              power_sensor := power_sensor |}
          else Exit 1
      end
  end end end.

Section Main.

Context {W : Type} `{World W}.

(** The monitor as [__init__] leaves it, before the first pass. *)
Definition fresh (w : W) : Sys W :=
  {| pm := initial_monitor; world := w; trace := [] |}.


(** Every run of [m] takes a state to one related to it by [R]. *)
Definition maintains {A} (R : Sys W -> Sys W -> Prop) (m : M W A) : Prop :=
  ∀ s, R s (m s).2.

(** The outside world is as before: no collaborator was called. *)
Definition same_world (s s' : Sys W) : Prop := world s' = world s.

End Main.

(** The priority tier goes first: a call on a node outside the priority
    roster comes only after power-off has been called on every tracked node
    of the priority roster. *)
Definition priority_first (cfg : Config) (tr : list event) : Prop :=
  ∀ i ev, tr !! i = Some ev ->
    ev_node ev ∉ (PyStr.strip <$> priority_shutdown_nodes cfg) ->
    ∀ m, tracked cfg Phase3 m ->
      ∃ j ok, (j < i)%nat ∧ tr !! j = Some (Ev PowerOff m ok).

(** [priority_first] with the set [off] of nodes that power-off has been
    called on before. *)
Fixpoint tiered (cfg : Config) (off : gset string) (evs : list event) : Prop :=
  match evs with
  | [] => True
  | ev :: evs' =>
      (ev_node ev ∉ (PyStr.strip <$> priority_shutdown_nodes cfg) ->
       ∀ m, tracked cfg Phase3 m -> m ∈ off) ∧
      tiered cfg (called PowerOff [ev] ∪ off) evs'
  end.

(** What an actuator method can log in the test modes: in a dry run every
    method returns [True], and so does [shutdown_node] when shutdowns are
    skipped. *)
Definition may_log (cfg : Config) (ev : event) : Prop :=
  (dry_run cfg = true -> ev_ok ev = true) ∧
  (ev_action ev = PowerOff -> skip_shutdown cfg = true -> ev_ok ev = true).

(** ** The code refines the log-level description *)

Lemma replay_app sd e1 e2 : replay sd (e1 ++ e2) = replay (replay sd e1) e2.
Proof. apply foldl_app. Qed.

Lemma mark_mono ev sd : sd ⊆ mark ev sd.
Proof. destruct ev as [[] n []]; simpl; set_solver. Qed.

Lemma replay_mono sd evs : sd ⊆ replay sd evs.
Proof.
  revert sd. induction evs as [|ev evs IH]; intros sd; simpl; [done|].
  etrans; [apply (mark_mono ev)|apply IH].
Qed.

Lemma replay_elem sd evs n :
  n ∈ replay sd evs ↔ n ∈ sd ∨ Ev PowerOff n true ∈ evs.
Proof.
  revert sd. induction evs as [|ev evs IH]; intros sd; simpl.
  - rewrite elem_of_nil. tauto.
  - rewrite IH, elem_of_cons. destruct ev as [[] m []]; simpl;
      rewrite ?elem_of_union, ?elem_of_singleton; intuition congruence.
Qed.

Ltac run_monad :=
  unfold mbind, M_bind, mret, M_ret, ext, returns, nodes_shutdown_add,
    set_nodes_shutdown, set_shutdown_initiated, set_power_outage_start,
    get_self, set_self; simpl.

Section RefinementProofs.

Context {W : Type} `{World W}.
Variable cfg : Config.

Lemma stepped_refl (s : Sys W) : stepped s [] s.
Proof. by split; rewrite ?app_nil_r. Qed.

Lemma stepped_trans (s1 s2 s3 : Sys W) e1 e2 :
  stepped s1 e1 s2 -> stepped s2 e2 s3 -> stepped s1 (e1 ++ e2) s3.
Proof.
  intros [T1 S1 I1 N1] [T2 S2 I2 N2]. split.
  - by rewrite T2, T1, app_assoc.
  - congruence.
  - congruence.
  - by rewrite N2, N1, replay_app.
Qed.

(** Every actuator method logs exactly its own call, and only a
    [shutdown_node] that returns [True] touches the monitor. *)
Lemma act_stepped a n (s : Sys W) :
  stepped s [Ev a n (act cfg a n s).1] (act cfg a n s).2.
Proof.
  destruct a; simpl.
  - unfold cordon_node. destruct (dry_run cfg); run_monad.
    + by split.
    + destruct (patch_node n true (world s)) as [ok w]. by split.
  - unfold uncordon_node. destruct (dry_run cfg); run_monad.
    + by split.
    + destruct (patch_node n false (world s)) as [ok w]. by split.
  - unfold drain_node. destruct (dry_run cfg); run_monad.
    + by split.
    + destruct (kubectl_drain n (world s)) as [[rc|] w];
        [destruct (rc =? 0)|]; by split.
  - unfold shutdown_node. destruct (dry_run cfg || skip_shutdown cfg); run_monad.
    + by split.
    + destruct (read_node n (world s)) as [[node|] w]; [|by split].
      destruct (internal_ip (addresses node)) as [[|c ip]|]; simpl; try by split.
      destruct (ssh_shutdown _ _ w) as [[rc|] w']; by split.
Qed.

Lemma act_all_stepped acts n (s : Sys W) :
  ∃ evs, stepped s evs (act_all cfg acts n s).2 ∧ visit acts n evs.
Proof.
  revert s. induction acts as [|a acts IH]; intros s; simpl.
  - exists []. split; [apply stepped_refl|]. by split.
  - run_monad. pose proof (act_stepped a n s) as Ha.
    destruct (act cfg a n s) as [ok s1]. simpl in Ha.
    destruct (IH s1) as (evs & Hs & Hm & Hn).
    exists (Ev a n ok :: evs). split; [apply (stepped_trans _ _ _ [_] _ Ha Hs)|].
    split; simpl; [by rewrite Hm | by constructor].
Qed.

Lemma sweep_loop_stepped guarded acts l (s : Sys W) :
  ∃ evs, stepped s evs (sweep_loop cfg guarded acts l s).2 ∧
         sweep (critical_node cfg) guarded acts l (nodes_shutdown (pm s)) evs.
Proof.
  revert s. induction l as [|x l IH]; intros s; simpl.
  - exists []. split; [apply stepped_refl|done].
  - unfold sweep_loop in *. simpl. run_monad.
    destruct (String.eqb _ _ || _) eqn:Hskip.
    + apply IH.
    + destruct (act_all_stepped acts (PyStr.strip x) s) as (e1 & Hs1 & Hv).
      destruct (act_all cfg acts (PyStr.strip x) s) as [[] s1]. simpl in Hs1.
      destruct (IH s1) as (e2 & Hs2 & Hsw).
      exists (e1 ++ e2). split; [by eapply stepped_trans|].
      exists e1, e2. split; [done|]. split; [done|].
      by rewrite <- (stepped_shutdown _ _ _ Hs1).
Qed.

Lemma phase1_loop_eq (s : Sys W) : phase1_loop cfg s = phase_loop cfg Phase1 s.
Proof.
  unfold phase1_loop, phase_loop, sweep_loop. simpl.
  revert s. induction (priority_shutdown_nodes cfg) as [|x l IH]; intros s; [done|].
  simpl. run_monad.
  destruct (String.eqb _ _); simpl; [apply IH|].
  destruct (cordon_node cfg _ s). apply IH.
Qed.

(** [execute_shutdown_sequence] is its five phases in a row, each opened
    by its [if]. *)
Lemma execute_shutdown_sequence_phases e :
  execute_shutdown_sequence cfg e =
  (self ← get_self;
   when (phase_due cfg Phase1 e (shutdown_initiated self))
     (set_shutdown_initiated true ;; phase1_loop cfg) ;;
   when (phase_due cfg Phase2 e (shutdown_initiated self)) (phase_loop cfg Phase2) ;;
   when (phase_due cfg Phase3 e (shutdown_initiated self)) (phase_loop cfg Phase3) ;;
   when (phase_due cfg Phase4 e (shutdown_initiated self)) (phase_loop cfg Phase4) ;;
   when (phase_due cfg Phase5 e (shutdown_initiated self)) (phase_loop cfg Phase5)).
Proof. reflexivity. Qed.

Lemma when_phase_stepped b ph (s : Sys W) :
  ∃ evs, stepped s evs (when b (phase_loop cfg ph) s).2 ∧
         phase_events cfg ph b (nodes_shutdown (pm s)) evs.
Proof.
  destruct b; simpl.
  - apply sweep_loop_stepped.
  - exists []. split; [apply stepped_refl|done].
Qed.

(** One poll: the log grows by calls that [poll_events] admits. *)
Lemma execute_shutdown_sequence_stepped e (s : Sys W) :
  let s' := exec (execute_shutdown_sequence cfg e) s in
  ∃ evs,
    trace s' = trace s ++ evs ∧
    power_outage_start (pm s') = power_outage_start (pm s) ∧
    shutdown_initiated (pm s') = shutdown_initiated (pm s) || reached 30 e ∧
    nodes_shutdown (pm s') = replay (nodes_shutdown (pm s)) evs ∧
    poll_events cfg e (shutdown_initiated (pm s)) (nodes_shutdown (pm s)) evs.
Proof.
  unfold exec.
  destruct (execute_shutdown_sequence cfg e s) as [[] s'] eqn:E. simpl.
  rewrite execute_shutdown_sequence_phases in E.
  set (init := shutdown_initiated (pm s)). set (sd := nodes_shutdown (pm s)).
  unfold mbind at 1, M_bind at 1, get_self at 1 in E. fold init in E.
  assert (∃ e1 s1, (when (phase_due cfg Phase1 e init)
              (set_shutdown_initiated true ;; phase1_loop cfg) s) = (tt, s1) ∧
            trace s1 = trace s ++ e1 ∧
            power_outage_start (pm s1) = power_outage_start (pm s) ∧
            shutdown_initiated (pm s1) = init || reached 30 e ∧
            nodes_shutdown (pm s1) = replay sd e1 ∧
            phase_events cfg Phase1 (phase_due cfg Phase1 e init) sd e1)
    as (e1 & s1 & E1 & T1 & S1 & I1 & N1 & P1).
  { unfold phase_due, threshold. destruct (reached 30 e) eqn:R, init eqn:I; simpl.
    1,3,4: exists [], s; rewrite ?app_nil_r; repeat split; try done.
    run_monad. rewrite phase1_loop_eq.
    set (s0 := {| pm := _ |}).
    destruct (sweep_loop_stepped false [Cordon] (priority_shutdown_nodes cfg) s0)
      as (e1 & [T S I' N] & Sw).
    exists e1, (phase_loop cfg Phase1 s0).2.
    split; [by destruct (phase_loop cfg Phase1 s0) as [[] ?]|].
    repeat split; done. }
  unfold mbind at 1, M_bind at 1 in E. rewrite E1 in E. clear E1.
  destruct (when_phase_stepped (phase_due cfg Phase2 e init) Phase2 s1)
    as (e2 & [T2 S2 I2 N2] & P2).
  unfold mbind at 1, M_bind at 1 in E.
  destruct (when _ (phase_loop cfg Phase2) s1) as [[] s2]. simpl in *.
  destruct (when_phase_stepped (phase_due cfg Phase3 e init) Phase3 s2)
    as (e3 & [T3 S3 I3 N3] & P3).
  unfold mbind at 1, M_bind at 1 in E.
  destruct (when _ (phase_loop cfg Phase3) s2) as [[] s3]. simpl in *.
  destruct (when_phase_stepped (phase_due cfg Phase4 e init) Phase4 s3)
    as (e4 & [T4 S4 I4 N4] & P4).
  unfold mbind at 1, M_bind at 1 in E.
  destruct (when _ (phase_loop cfg Phase4) s3) as [[] s4]. simpl in *.
  destruct (when_phase_stepped (phase_due cfg Phase5 e init) Phase5 s4)
    as (e5 & [T5 S5 I5 N5] & P5).
  destruct (when _ (phase_loop cfg Phase5) s4) as [[] s5]. simpl in *.
  injection E as <-.
  exists (e1 ++ e2 ++ e3 ++ e4 ++ e5).
  rewrite N2, N1 in N3. rewrite N3 in N4. rewrite N4 in N5.
  rewrite N1 in P2. rewrite N2, N1 in P3. rewrite N3 in P4. rewrite N4 in P5.
  rewrite <- !replay_app in *.
  split; [by rewrite T5, T4, T3, T2, T1, <- !app_assoc|].
  split; [by rewrite S5, S4, S3, S2|]. split; [by rewrite I5, I4, I3, I2|].
  split; [by rewrite N5, <- ?app_assoc|].
  exists e1, e2, e3, e4, e5. rewrite <- ?app_assoc in *. done.
Qed.

End RefinementProofs.

(** ** Properties of the log of a poll *)

Lemma latched_app sd e1 e2 :
  latched sd (e1 ++ e2) ↔ latched sd e1 ∧ latched (replay sd e1) e2.
Proof.
  revert sd. induction e1 as [|ev e1 IH]; intros sd; simpl; [tauto|].
  rewrite IH. tauto.
Qed.

Lemma latched_elem sd evs ev :
  latched sd evs -> ev ∈ evs -> ev_node ev ∈ sd -> ev_action ev = Cordon.
Proof.
  revert sd. induction evs as [|ev' evs IH]; intros sd; simpl.
  - by intros _ ?%elem_of_nil.
  - intros [Hd Hl] [->|Hin]%elem_of_cons Hsd; [auto|].
    eapply IH; [done..|]. by apply mark_mono.
Qed.

Lemma visit_elem acts n evs ev :
  visit acts n evs -> ev ∈ evs -> ev_node ev = n ∧ ev_action ev ∈ acts.
Proof.
  intros [<- Hn] Hin. split.
  - by eapply Forall_forall in Hn.
  - by apply list_elem_of_fmap_2.
Qed.

Lemma visit_replay acts n evs sd m :
  visit acts n evs -> m ∈ replay sd evs -> m ∈ sd ∨ m = n.
Proof.
  intros Hv [?|Hin]%replay_elem; [by left|right].
  by destruct (visit_elem _ _ _ _ Hv Hin) as [<- _].
Qed.

(** What a sweep can log: a method of the phase, on a stripped roster entry
    that is not the critical node and that a guarded loop did not find
    among the nodes shut down when the sweep began. *)
Lemma sweep_elem c g acts l sd evs ev :
  sweep c g acts l sd evs -> ev ∈ evs ->
  ev_action ev ∈ acts ∧ ev_node ev ≠ c ∧ ev_node ev ∈ (PyStr.strip <$> l) ∧
  (g = true -> ev_node ev ∉ sd).
Proof.
  revert sd evs. induction l as [|x l IH]; intros sd evs; simpl.
  - by intros -> ?%elem_of_nil.
  - destruct (String.eqb _ _ || _) eqn:Hskip.
    + intros Hs Hin. destruct (IH _ _ Hs Hin) as (?&?&?&?).
      repeat split; auto. by right.
    + apply orb_false_iff in Hskip as [Hc Hg].
      intros (e1 & e2 & -> & Hv & Hs) [Hin|Hin]%elem_of_app.
      * destruct (visit_elem _ _ _ _ Hv Hin) as [-> Ha].
        repeat split; auto.
        -- by apply String.eqb_neq.
        -- by left.
        -- intros ->. simpl in Hg. by apply bool_decide_eq_false in Hg.
      * destruct (IH _ _ Hs Hin) as (?&?&?&Hn).
        repeat split; auto; [by right|].
        intros Hgt Hsd. apply (Hn Hgt). by apply replay_mono.
Qed.

Lemma visit_latched acts n evs sd :
  visit acts n evs ->
  acts ∈ [[Cordon]; [Drain]; [PowerOff]; [Cordon; Drain]] ->
  n ∉ sd ∨ acts = [Cordon] ->
  latched sd evs.
Proof.
  intros [Ha Hn] Hacts Hsd.
  assert (∀ ev, ev ∈ evs -> ev_node ev = n) as Hn' by by apply Forall_forall.
  repeat (apply elem_of_cons in Hacts as [->|Hacts]);
    [| | | |by apply elem_of_nil in Hacts].
  all: destruct evs as [|[a1 n1 o1] [|[a2 n2 o2] evs]]; simplify_eq/=;
    try destruct evs; simplify_eq/=.
  all: pose proof (Hn' (Ev _ n1 o1) ltac:(left)) as E1; simpl in E1; subst n1.
  all: try (pose proof (Hn' (Ev _ n2 o2) ltac:(right; left)) as E2; simpl in E2; subst n2).
  all: destruct Hsd as [?|?]; try done; repeat split; try done.
Qed.

Lemma sweep_latched c g acts l sd evs :
  acts ∈ [[Cordon]; [Drain]; [PowerOff]; [Cordon; Drain]] ->
  g = true ∨ acts = [Cordon] ->
  sweep c g acts l sd evs -> latched sd evs.
Proof.
  intros Hacts Hg. revert sd evs. induction l as [|x l IH]; intros sd evs; simpl.
  - by intros ->.
  - destruct (String.eqb _ _ || _) eqn:Hskip; [apply IH|].
    apply orb_false_iff in Hskip as [Hc Hsk].
    intros (e1 & e2 & -> & Hv & Hs). apply latched_app. split; [|by apply IH].
    eapply visit_latched; [done..|].
    destruct Hg as [->|?]; [left|by right].
    simpl in Hsk. by apply bool_decide_eq_false in Hsk.
Qed.

Lemma phase_acts_known ph :
  phase_acts ph ∈ [[Cordon]; [Drain]; [PowerOff]; [Cordon; Drain]].
Proof. destruct ph; compute_done. Qed.

Lemma phase_acts_no_uncordon ph : Uncordon ∉ phase_acts ph.
Proof. destruct ph; compute_done. Qed.

Lemma phase_events_latched cfg ph b sd evs :
  phase_events cfg ph b sd evs -> latched sd evs.
Proof.
  destruct b; simpl; [|by intros ->].
  apply sweep_latched; [apply phase_acts_known|]. destruct ph; auto.
Qed.

Lemma phase_events_elem cfg ph b sd evs ev :
  phase_events cfg ph b sd evs -> ev ∈ evs ->
  b = true ∧ ev_action ev ∈ phase_acts ph ∧ ev_node ev ≠ critical_node cfg ∧
  ev_node ev ∈ (PyStr.strip <$> roster cfg ph) ∧
  (phase_guarded ph = true -> ev_node ev ∉ sd).
Proof.
  destruct b; simpl; [|by intros -> ?%elem_of_nil].
  intros Hs Hin. split; [done|]. by eapply sweep_elem.
Qed.

Lemma poll_events_latched cfg e init sd evs :
  poll_events cfg e init sd evs -> latched sd evs.
Proof.
  intros (e1 & e2 & e3 & e4 & e5 & -> & P1 & P2 & P3 & P4 & P5).
  rewrite !latched_app, <- !replay_app, <- ?app_assoc.
  repeat split; eapply phase_events_latched; eassumption.
Qed.

Lemma poll_events_elem cfg e init sd evs ev :
  poll_events cfg e init sd evs -> ev ∈ evs ->
  ∃ ph, phase_due cfg ph e init = true ∧ ev_action ev ∈ phase_acts ph ∧
        ev_node ev ≠ critical_node cfg ∧
        ev_node ev ∈ (PyStr.strip <$> roster cfg ph) ∧
        (phase_guarded ph = true -> ev_node ev ∉ sd).
Proof.
  intros (e1 & e2 & e3 & e4 & e5 & -> & P1 & P2 & P3 & P4 & P5).
  rewrite !elem_of_app. intros [Hin|[Hin|[Hin|[Hin|Hin]]]].
  - exists Phase1. by eapply phase_events_elem in Hin.
  - exists Phase2. eapply phase_events_elem in Hin as (?&?&?&?&Hn); [|done].
    repeat split; auto. intros Hg Hsd. apply Hn; [done|]. by apply replay_mono.
  - exists Phase3. eapply phase_events_elem in Hin as (?&?&?&?&Hn); [|done].
    repeat split; auto. intros Hg Hsd. apply Hn; [done|]. by apply replay_mono.
  - exists Phase4. eapply phase_events_elem in Hin as (?&?&?&?&Hn); [|done].
    repeat split; auto. intros Hg Hsd. apply Hn; [done|]. by apply replay_mono.
  - exists Phase5. eapply phase_events_elem in Hin as (?&?&?&?&Hn); [|done].
    repeat split; auto. intros Hg Hsd. apply Hn; [done|]. by apply replay_mono.
Qed.

Section EpochProofs.

Context {W : Type} `{World W}.
Variable cfg : Config.

Lemma new_events_app (s s' : Sys W) evs :
  trace s' = trace s ++ evs -> new_events s s' = evs.
Proof. intros E. unfold new_events. by rewrite E, drop_app_length. Qed.

Lemma epoch_stepped (ps : list (Q * W)) (s : Sys W) :
  let s' := epoch cfg ps s in
  ∃ evs,
    trace s' = trace s ++ evs ∧
    power_outage_start (pm s') = power_outage_start (pm s) ∧
    nodes_shutdown (pm s') = replay (nodes_shutdown (pm s)) evs ∧
    epoch_events cfg ps.*1 (shutdown_initiated (pm s)) (nodes_shutdown (pm s)) evs.
Proof.
  revert s. induction ps as [|[e w] ps IH]; intros s; simpl.
  - exists []. by rewrite app_nil_r.
  - destruct (execute_shutdown_sequence_stepped cfg e (with_world w s))
      as (e1 & T1 & S1 & I1 & N1 & P1).
    destruct (IH (poll cfg (e, w) s)) as (e2 & T2 & S2 & N2 & P2).
    unfold poll in *. simpl in *.
    exists (e1 ++ e2). rewrite T2, T1, S2, S1, N2, N1, app_assoc, replay_app.
    repeat split; try done. exists e1, e2. by rewrite <- I1, <- N1.
Qed.

Lemma epoch_events_latched es init sd evs :
  epoch_events cfg es init sd evs -> latched sd evs.
Proof.
  revert init sd evs. induction es as [|e es IH]; intros init sd evs; simpl.
  - by intros ->.
  - intros (e1 & e2 & -> & P1 & P2). apply latched_app.
    eauto using poll_events_latched.
Qed.

Lemma epoch_events_elem es init sd evs ev :
  epoch_events cfg es init sd evs -> ev ∈ evs ->
  ev_node ev ≠ critical_node cfg ∧ ev_action ev ≠ Uncordon.
Proof.
  revert init sd evs. induction es as [|e es IH]; intros init sd evs; simpl.
  - by intros -> ?%elem_of_nil.
  - intros (e1 & e2 & -> & P1 & P2) [Hin|Hin]%elem_of_app; [|by eapply IH].
    destruct (poll_events_elem _ _ _ _ _ _ P1 Hin) as (ph & _ & Ha & Hc & _).
    split; [done|]. intros E. rewrite E in Ha.
    by apply phase_acts_no_uncordon in Ha.
Qed.

End EpochProofs.

Lemma elem_of_called a evs n : n ∈ called a evs ↔ ∃ ok, Ev a n ok ∈ evs.
Proof.
  unfold called. rewrite elem_of_list_to_set, list_elem_of_fmap. split.
  - intros ([a' n' ok] & -> & [Ha Hin]%list_elem_of_filter). simpl in *. subst. eauto.
  - intros [ok Hin]. exists (Ev a n ok). split; [done|].
    by apply list_elem_of_filter.
Qed.

Lemma called_app a e1 e2 : called a (e1 ++ e2) = called a e1 ∪ called a e2.
Proof.
  apply set_eq. intros n. rewrite elem_of_union, !elem_of_called.
  setoid_rewrite elem_of_app. naive_solver.
Qed.


Lemma staged_mono C D C' D' evs :
  C ⊆ C' -> D ⊆ D' -> staged C D evs -> staged C' D' evs.
Proof.
  revert C D C' D'. induction evs as [|[[] n ok] evs IH]; intros C D C' D' HC HD; simpl;
    [done|..].
  - apply IH; set_solver.
  - by apply IH.
  - intros [? ?]. split; [set_solver|]. eapply IH; [..|done]; set_solver.
  - intros [? ?]. split; [set_solver|]. eapply IH; [..|done]; set_solver.
Qed.



(** A roster entry that the loop does not skip gets every method of the
    phase called on it. *)
Lemma sweep_covers c g acts l sd evs a x :
  sweep c g acts l sd evs -> a ∈ acts -> x ∈ l ->
  PyStr.strip x ≠ c -> (g = true -> PyStr.strip x ∉ sd) ->
  ∃ ok, Ev a (PyStr.strip x) ok ∈ evs.
Proof.
  intros Hs Ha Hx Hc. revert sd evs Hs.
  induction l as [|y l IH]; intros sd evs Hs Hsd; [by apply elem_of_nil in Hx|].
  simpl in Hs. destruct (String.eqb _ _ || _) eqn:Hskip.
  - apply elem_of_cons in Hx as [->|Hx]; [|by eapply IH].
    apply orb_true_iff in Hskip as [?%String.eqb_eq|[-> ?%bool_decide_eq_true]%andb_true_iff];
      [done|]. by destruct Hsd.
  - destruct Hs as (e1 & e2 & -> & Hv & Hs).
    destruct (decide (PyStr.strip x = PyStr.strip y)) as [E|NE].
    + destruct Hv as [Hm Hn]. rewrite <- Hm in Ha.
      apply list_elem_of_fmap in Ha as ([a' n' ok] & -> & Hin).
      exists ok. apply elem_of_app. left.
      eapply Forall_forall in Hn; [|done]. simpl in Hn. by rewrite E, <- Hn.
    + apply elem_of_cons in Hx as [->|Hx]; [done|].
      destruct (IH Hx _ _ Hs) as [ok Hin].
      * intros Hg [?|?]%(visit_replay _ _ _ _ _ Hv); [by apply Hsd|done].
      * exists ok. apply elem_of_app. by right.
Qed.

Lemma reached_mono t t' e : t' <= t -> reached t e = true -> reached t' e = true.
Proof.
  unfold reached. rewrite !Qle_bool_iff. intros Ht He.
  eapply Qle_trans; [|done]. by rewrite <- Zle_Qle.
Qed.

Section Staging.

Variable cfg : Config.
Hypothesis priority_ordered : 60 <= shutdown_pi5_01_delay cfg.
Hypothesis secondary_ordered : 300 <= shutdown_others_delay cfg.




Lemma phase_events_covers ph sd evs a n :
  phase_events cfg ph true sd evs -> a ∈ phase_acts ph -> tracked cfg ph n ->
  (phase_guarded ph = true -> n ∉ sd) -> n ∈ called a evs.
Proof.
  intros He Ha [Hr Hc] Hsd. apply list_elem_of_fmap in Hr as (x & -> & Hx).
  apply elem_of_called. by eapply sweep_covers.
Qed.



End Staging.

(** ** The sensor reading *)

Lemma to_ascii_fold_lower c :
  PyStr.to_ascii_fold (PyStr.lower_char c) = PyStr.to_ascii_fold c.
Proof. by destruct c as [[] [] [] [] [] [] [] []]. Qed.

Lemma map_fold_lower s :
  PyStr.map_chars PyStr.to_ascii_fold (PyStr.map_chars PyStr.lower_char s) =
  PyStr.map_chars PyStr.to_ascii_fold s.
Proof.
  induction s as [|c s IH]; simpl; [done|]. by rewrite IH, to_ascii_fold_lower.
Qed.

(** [float] reads letters without regard to case. *)
Lemma float_lower s : PyStr.float (PyStr.lower s) = PyStr.float s.
Proof. unfold PyStr.float, PyStr.lower. by rewrite map_fold_lower. Qed.

Lemma float_sentinel state :
  state ∈ ["unavailable"; "unknown"; "none"] -> PyStr.float state = None.
Proof.
  intros Hs. repeat (apply elem_of_cons in Hs as [->|Hs]); [done..|].
  by apply elem_of_nil in Hs.
Qed.

Lemma is_power_available_iff cfg (sensor_data : option (gmap string string)) :
  is_power_available cfg sensor_data = true ↔
    test_mode cfg ≠ "simulate_outage" ∧
    ∃ d power, sensor_data = Some d ∧
      PyStr.float (default "" (d !! "state")) = Some power ∧
      PyStr.gt_zero power = true.
Proof.
  unfold is_power_available.
  destruct (String.eqb_spec (test_mode cfg) "simulate_outage") as [E|NE];
    [naive_solver|].
  destruct sensor_data as [d|]; [|naive_solver].
  case_bool_decide as Hd.
  { subst d. split; [done|]. intros (_ & d & x & [= <-] & Hf & _).
    by rewrite lookup_empty in Hf. }
  case_bool_decide as Hs.
  { split; [done|]. intros (_ & d' & x & [= <-] & Hf & _).
    apply float_sentinel in Hs. rewrite float_lower in Hs. congruence. }
  rewrite float_lower. destruct (PyStr.float _) as [power|] eqn:Hf; naive_solver.
Qed.

(** C5. Power is judged available exactly when the state of the sensor reading
    parses as a number greater than 0 (and the monitor does not simulate an
    outage). A missing reading (transport failure), the states
    [unavailable], [unknown] and [none] in any case of letters, and states
    that are no number or no positive number give unavailable; with
    [TEST_MODE=simulate_outage] every reading gives unavailable. *)
Theorem is_power_available_spec cfg (sensor_data : option (gmap string string)) :
  (is_power_available cfg sensor_data = true ↔
     test_mode cfg ≠ "simulate_outage" ∧
     ∃ d power, sensor_data = Some d ∧
       PyStr.float (default "" (d !! "state")) = Some power ∧
       PyStr.gt_zero power = true) ∧
  is_power_available cfg None = false ∧
  Forall (λ state, ∀ d, is_power_available cfg (Some (<["state" := state]> d)) = false)
    ["unavailable"; "unknown"; "none"; "Unavailable"; "on"; ""; "0"; "-5"; "nan"] ∧
  is_power_available (with_test_mode "simulate_outage" cfg) sensor_data = false.
Proof.
  split; [apply is_power_available_iff|].
  split; [by unfold is_power_available; case_match|].
  split; [|done].
  repeat constructor; intros d;
    (destruct (is_power_available cfg _) eqn:E; [|done]);
    apply is_power_available_iff in E as (_ & d' & x & [= <-] & Hf & Hx);
    rewrite lookup_insert_eq in Hf; vm_compute in Hf; by simplify_eq.
Qed.

(** ** Thresholds and elapsed time *)



(** Every call a poll logs is a transition that was due when the poll
    began. *)
Lemma poll_events_due cfg e init sd evs ev :
  poll_events cfg e init sd evs -> ev ∈ evs ->
  call_of ev ∈ due_transitions cfg e init sd.
Proof.
  intros P Hin.
  destruct (poll_events_elem _ _ _ _ _ _ P Hin) as (ph & Hdue & Ha & Hc & Hr & Hsd).
  unfold due_transitions. apply list_elem_of_bind. exists ph.
  split; [|destruct ph; set_solver]. rewrite Hdue.
  unfold phase_transitions. apply list_elem_of_bind. exists (ev_node ev). split.
  - unfold call_of. by apply (list_elem_of_fmap_2 (λ a, (a, ev_node ev))).
  - apply list_elem_of_filter. split; [|done]. unfold skipped.
    apply orb_false_iff. split; [by apply String.eqb_neq|].
    destruct (phase_guarded ph); [|done]. simpl. apply bool_decide_eq_false. auto.
Qed.




Section Guards.
Context {W : Type} `{World W}.


End Guards.

(** ** Recovery *)

Section Recovery.

Context {W : Type} `{World W}.
Variable cfg : Config.

(** The loop of [restore_power_procedures] calls [uncordon_node] once for
    every listed node that is recoverable, in the order of the listing. *)
Lemma recovery_loop_stepped (items : list V1Node) (s : Sys W) :
  let s' := exec (for_each items (λ node,
      let node_name := node_name node in
      if String.eqb node_name (critical_node cfg) then mret tt
      else if is_ready node && unschedulable node then
        uncordon_node cfg node_name ;; mret tt
      else mret tt)) s in
  pm s' = pm s ∧
  ∃ evs, trace s' = trace s ++ evs ∧
    call_of <$> evs = (λ node, (Uncordon, node_name node)) <$> filter (recoverable cfg) items.
Proof.
  unfold exec, mbind, M_bind, mret, M_ret.
  revert s. induction items as [|node items IH]; intros s.
  - split; [done|]. exists []. by rewrite app_nil_r.
  - cbn [for_each]. unfold mbind, M_bind, mret, M_ret.
    destruct (String.eqb_spec (node_name node) (critical_node cfg)) as [E|NE].
    { rewrite filter_cons_False by (by intros (? & _)). apply IH. }
    destruct (is_ready node && unschedulable node) eqn:R.
    2: { rewrite filter_cons_False; [apply IH|].
         intros (_ & R1 & R2). by rewrite R1, R2 in R. }
    apply andb_true_iff in R as [R U].
    rewrite filter_cons_True by done.
    pose proof (act_stepped cfg Uncordon (node_name node) s) as [T S I N].
    cbn [act] in T, S, I, N.
    destruct (uncordon_node cfg (node_name node) s) as [ok s1].
    cbn [fst snd] in *.
    destruct (IH s1) as (Hpm & evs & T' & Hc).
    split.
    { rewrite Hpm. destruct (pm s1), (pm s); simpl in *. congruence. }
    exists (Ev Uncordon (node_name node) ok :: evs).
    split; [by rewrite T', T, <- app_assoc|]. by rewrite !fmap_cons, Hc.
Qed.

Lemma restore_power_procedures_stepped (s : Sys W) :
  let s' := exec (restore_power_procedures cfg) s in
  pm s' = initial_monitor ∧
  ∃ evs, trace s' = trace s ++ evs ∧
    call_of <$> evs = (λ node, (Uncordon, node_name node)) <$>
      filter (recoverable cfg) (default [] (list_node (sleep 60 (world s))).1).
Proof.
  unfold exec, restore_power_procedures. run_monad.
  destruct (list_node (sleep 60 (world s))) as [[items|] w]; simpl.
  - set (s0 := {| pm := pm s; world := w; trace := trace s |}).
    destruct (recovery_loop_stepped items s0) as (_ & evs & T & Hc).
    unfold exec in T. destruct (for_each items _ s0) as [[] s1]. simpl in *.
    split; [done|]. by exists evs.
  - split; [done|]. exists []. by rewrite app_nil_r.
Qed.

End Recovery.

(** ** Polls of an outage *)

Lemma phase_acts_cordon ph : Cordon ∈ phase_acts ph -> ph = Phase1 ∨ ph = Phase4.
Proof. destruct ph; auto; intros Hc; exfalso; revert Hc; compute_done. Qed.

(** A phase that is due reaches every node it tracks, unless the node has
    been powered off earlier in the same poll. *)
Lemma poll_events_covers cfg e init sd evs ph a n :
  poll_events cfg e init sd evs ->
  phase_due cfg ph e init = true -> a ∈ phase_acts ph -> tracked cfg ph n -> n ∉ sd ->
  (∃ ok, Ev a n ok ∈ evs) ∨ Ev PowerOff n true ∈ evs.
Proof.
  intros (e1 & e2 & e3 & e4 & e5 & -> & P1 & P2 & P3 & P4 & P5) Hdue Ha Ht Hsd.
  assert (∀ pre evs', phase_events cfg ph true (replay sd pre) evs' ->
            (∃ ok, Ev a n ok ∈ pre ++ evs') ∨ Ev PowerOff n true ∈ pre ++ evs') as Hcov.
  { intros pre evs' Hp. destruct (decide (n ∈ replay sd pre)) as [Hin|Hout].
    - apply replay_elem in Hin as [?|?]; [done|]. right. apply elem_of_app. by left.
    - left. eapply phase_events_covers in Hp; [|done..].
      apply elem_of_called in Hp as [ok ?]. exists ok. apply elem_of_app. by right. }
  assert (∀ pre evs' post,
            (∃ ok, Ev a n ok ∈ pre ++ evs') ∨ Ev PowerOff n true ∈ pre ++ evs' ->
            (∃ ok, Ev a n ok ∈ (pre ++ evs') ++ post) ∨
              Ev PowerOff n true ∈ (pre ++ evs') ++ post) as Hext.
  { intros pre evs' post [[ok ?]|?]; [left; exists ok|right]; apply elem_of_app; by left. }
  destruct ph; rewrite Hdue in *.
  - specialize (Hcov [] e1 P1). apply (Hext [] e1 (e2 ++ e3 ++ e4 ++ e5)) in Hcov. done.
  - specialize (Hcov e1 e2 P2). apply (Hext _ _ (e3 ++ e4 ++ e5)) in Hcov.
    by rewrite <- app_assoc in Hcov.
  - specialize (Hcov (e1 ++ e2) e3 P3). apply (Hext _ _ (e4 ++ e5)) in Hcov.
    by rewrite <- !app_assoc in Hcov.
  - specialize (Hcov (e1 ++ e2 ++ e3) e4 P4). apply (Hext _ _ e5) in Hcov.
    by rewrite <- !app_assoc in Hcov.
  - specialize (Hcov (e1 ++ e2 ++ e3 ++ e4) e5 P5). by rewrite <- !app_assoc in Hcov.
Qed.

(** Once phase 1 has run, cordon is only called by the secondary sweep. *)
Lemma epoch_events_cordon cfg es sd evs n ok :
  epoch_events cfg es true sd evs -> Ev Cordon n ok ∈ evs ->
  n ∈ (PyStr.strip <$> secondary_shutdown_nodes cfg).
Proof.
  revert sd evs. induction es as [|e es IH]; intros sd evs; simpl.
  - by intros -> ?%elem_of_nil.
  - intros (e1 & e2 & -> & P1 & P2) [Hin|Hin]%elem_of_app; [|by eapply IH].
    destruct (poll_events_elem _ _ _ _ _ _ P1 Hin) as (ph & Hdue & Ha & _ & Hr & _).
    simpl in *. apply phase_acts_cordon in Ha as [->| ->]; [|done].
    simpl in Hdue. by rewrite andb_false_r in Hdue.
Qed.

Section Claims.

Context {W : Type} `{World W}.
Variable cfg : Config.

Lemma poll_stepped (p : Q * W) (s : Sys W) :
  let s' := poll cfg p s in
  ∃ evs,
    trace s' = trace s ++ evs ∧
    shutdown_initiated (pm s') = shutdown_initiated (pm s) || reached 30 p.1 ∧
    nodes_shutdown (pm s') = replay (nodes_shutdown (pm s)) evs ∧
    poll_events cfg p.1 (shutdown_initiated (pm s)) (nodes_shutdown (pm s)) evs.
Proof.
  destruct (execute_shutdown_sequence_stepped cfg p.1 (with_world p.2 s))
    as (evs & T & _ & I & N & P). by exists evs.
Qed.



(** C1, amended. Once a power-off of a node has succeeded in one poll, no
    later poll of the same outage calls power-off for that node again; and
    once a cordon of a node outside the secondary roster has succeeded, no
    later poll calls cordon for it again. (Drain, and the cordon of the
    secondary sweep, carry no such latch.) *)
Theorem successful_power_off_fires_once start (w : W) ps1 p ps2 a n ok :
  let s1 := epoch cfg ps1 (outage_onset start w) in
  let s2 := poll cfg p s1 in
  let s3 := epoch cfg ps2 s2 in
  Ev a n true ∈ new_events s1 s2 ->
  a = PowerOff ∨
    (a = Cordon ∧ n ∉ (PyStr.strip <$> secondary_shutdown_nodes cfg)) ->
  Ev a n ok ∉ new_events s2 s3.
Proof.
  intros s1 s2 s3.
  destruct (poll_stepped p s1) as (e12 & T12 & I12 & N12 & P12).
  destruct (epoch_stepped cfg ps2 s2) as (e23 & T23 & _ & N23 & P23).
  fold s2 in T12, I12, N12. fold s3 in T23, N23.
  rewrite (new_events_app _ _ _ T12), (new_events_app _ _ _ T23).
  intros Hin [->|[-> Hsec]] Hin'.
  - pose proof (epoch_events_latched _ _ _ _ _ P23) as L23.
    assert (ev_action (Ev PowerOff n ok) = Cordon) as Habs; [|done].
    eapply latched_elem; [exact L23|exact Hin'|].
    simpl. rewrite N12. apply replay_elem. by right.
  - destruct (poll_events_elem _ _ _ _ _ _ P12 Hin) as (ph & Hdue & Ha & _ & Hr & _).
    simpl in *. apply phase_acts_cordon in Ha as [->| ->]; [|done].
    simpl in Hdue. apply andb_true_iff in Hdue as [R _].
    rewrite R, orb_true_r in I12. rewrite I12 in P23.
    apply Hsec. eapply epoch_events_cordon; [exact P23|exact Hin'].
Qed.

(** C2, amended. For the phases after the first: at a poll at which the
    threshold of the phase is met, every method of the phase is called on
    every tracked node that is not marked shut down, unless the node is
    powered off earlier in that poll; a power-off that succeeds marks the
    node shut down; and a call that fails leaves the monitor as it was, so
    the node is due again at the next poll. *)
Theorem due_transition_attempted ph a n e (s : Sys W) :
  let s' := exec (execute_shutdown_sequence cfg e) s in
  ph ≠ Phase1 -> a ∈ phase_acts ph -> tracked cfg ph n ->
  n ∉ nodes_shutdown (pm s) ->
  reached (threshold cfg ph) e = true ->
  ((∃ ok, Ev a n ok ∈ new_events s s') ∨ Ev PowerOff n true ∈ new_events s s') ∧
  (Ev PowerOff n true ∈ new_events s s' -> n ∈ nodes_shutdown (pm s')) ∧
  (∀ s0 : Sys W, (act cfg a n s0).1 = false -> pm (act cfg a n s0).2 = pm s0).
Proof.
  intros s' Hph Ha Ht Hsd Hr.
  destruct (execute_shutdown_sequence_stepped cfg e s) as (evs & T & _ & _ & N & P).
  fold s' in T, N. rewrite (new_events_app _ _ _ T).
  split; [|split].
  - eapply poll_events_covers; [done| |done..]. by destruct ph.
  - intros Hin. rewrite N. apply replay_elem. by right.
  - intros s0 Hfail. destruct (act_stepped cfg a n s0) as [_ S I N0].
    rewrite Hfail in N0.
    assert (nodes_shutdown (pm (act cfg a n s0).2) = nodes_shutdown (pm s0)) as N1
      by (by destruct a).
    destruct (pm (act cfg a n s0).2), (pm s0); simpl in *. congruence.
Qed.


(** C10. When the node has an internal address and the [ssh] command
    returns, whatever its exit status, [shutdown_node] returns [True] and
    adds the node to [nodes_shutdown]; the node stays there for all further
    polls of the outage, none of which calls power-off for it again. *)
Theorem power_off_recorded_whatever_exit_status n (s : Sys W) node ip rc w1 w2 :
  dry_run cfg = false -> skip_shutdown cfg = false ->
  read_node n (world s) = (Some node, w1) ->
  internal_ip (addresses node) = Some ip -> ip ≠ "" ->
  ssh_shutdown (ssh_key_path cfg) (ssh_user cfg +:+ "@" +:+ ip) w1 = (Some rc, w2) ->
  let r := shutdown_node cfg n s in
  r.1 = true ∧ n ∈ nodes_shutdown (pm r.2) ∧
  trace r.2 = trace s ++ [Ev PowerOff n true] ∧
  ∀ ps, let s' := epoch cfg ps r.2 in
    n ∈ nodes_shutdown (pm s') ∧
    ∀ ok, Ev PowerOff n ok ∉ new_events r.2 s'.
Proof.
  intros Hdry Hskip Hread Hip Hne Hssh r.
  assert (r.1 = true ∧ n ∈ nodes_shutdown (pm r.2) ∧
          trace r.2 = trace s ++ [Ev PowerOff n true]) as (R1 & R2 & R3).
  { subst r. destruct ip as [|c ip]; [done|].
    unfold shutdown_node. rewrite Hdry, Hskip. run_monad.
    rewrite Hread, Hip. simpl in *. rewrite Hssh. simpl.
    repeat split. set_solver. }
  repeat split; try done.
  - destruct (epoch_stepped cfg ps r.2) as (evs & _ & _ & N & _).
    rewrite N. by apply replay_mono.
  - intros ok. destruct (epoch_stepped cfg ps r.2) as (evs & T & _ & _ & P).
    rewrite (new_events_app _ _ _ T). intros Hin.
    pose proof (epoch_events_latched _ _ _ _ _ P) as L.
    assert (ev_action (Ev PowerOff n ok) = Cordon) as Habs; [|done].
    eapply latched_elem; [exact L|exact Hin|done].
Qed.

End Claims.

(** ** The loop *)

Lemma uncordon_calls (evs : list event) (l : list V1Node) :
  call_of <$> evs = (λ node, (Uncordon, node_name node)) <$> l ->
  Forall (λ ev, ev_action ev = Uncordon) evs ∧ ev_node <$> evs = node_name <$> l.
Proof.
  revert l. induction evs as [|[a n ok] evs IH]; intros [|node l]; try done.
  rewrite !fmap_cons. intros [= -> -> Hc]. destruct (IH _ Hc) as [? ->].
  split; [by constructor|done].
Qed.

Section Loop.

Context {W : Type} `{World W}.
Variable cfg : Config.

Lemma logs_ret {A} P (a : A) : logs (W:=W) P (mret a).
Proof. intros s. exists []. by rewrite app_nil_r. Qed.

Lemma logs_bind {A B} P (m : M W A) (f : A -> M W B) :
  logs P m -> (∀ a, logs P (f a)) -> logs P (m ≫= f).
Proof.
  intros Hm Hf s. unfold mbind, M_bind. destruct (Hm s) as (e1 & T1 & F1).
  destruct (m s) as [a s1]. destruct (Hf a s1) as (e2 & T2 & F2).
  exists (e1 ++ e2). split; [|by apply Forall_app].
  simpl in *. by rewrite T2, T1, app_assoc.
Qed.

Lemma logs_ext {A} P (f : W -> A * W) : logs P (ext f).
Proof.
  intros s. exists []. unfold ext. destruct (f (world s)). by rewrite app_nil_r.
Qed.

Lemma logs_get_self P : logs (W:=W) P get_self.
Proof. intros s. exists []. by rewrite app_nil_r. Qed.

Lemma logs_set_self P p : logs (W:=W) P (set_self p).
Proof. intros s. exists []. by rewrite app_nil_r. Qed.

Lemma logs_set_power_outage_start P v : logs (W:=W) P (set_power_outage_start v).
Proof. apply logs_bind; [apply logs_get_self|intros; apply logs_set_self]. Qed.

Lemma logs_set_shutdown_initiated P v : logs (W:=W) P (set_shutdown_initiated v).
Proof. apply logs_bind; [apply logs_get_self|intros; apply logs_set_self]. Qed.

Lemma logs_execute_shutdown_sequence e :
  logs (spares_critical cfg) (execute_shutdown_sequence cfg e).
Proof.
  intros s. destruct (execute_shutdown_sequence_stepped cfg e s) as (evs & T & _ & _ & _ & P).
  exists evs. split; [done|]. apply Forall_forall. intros ev Hin.
  by destruct (poll_events_elem _ _ _ _ _ _ P Hin) as (_ & _ & _ & ? & _).
Qed.

Lemma logs_restore_power_procedures :
  logs (spares_critical cfg) (restore_power_procedures cfg).
Proof.
  intros s. destruct (restore_power_procedures_stepped cfg s) as (_ & evs & T & Hc).
  exists evs. split; [done|]. apply uncordon_calls in Hc as [_ Hn].
  apply Forall_forall. intros ev Hin.
  assert (ev_node ev ∈ ev_node <$> evs) as Hin' by by apply list_elem_of_fmap_2.
  rewrite Hn in Hin'. apply list_elem_of_fmap in Hin' as (node & E & Hf).
  unfold spares_critical. rewrite E.
  by apply list_elem_of_filter in Hf as [[? _] _].
Qed.

Lemma logs_run_once : logs (spares_critical cfg) (run_once cfg).
Proof.
  unfold run_once, get_power_status.
  apply logs_bind; [apply logs_ext|intros sensor_data].
  apply logs_bind; [|intros; apply logs_ext].
  destruct (is_power_available cfg sensor_data).
  - apply logs_bind; [apply logs_get_self|intros self].
    destruct (power_outage_start self); [|apply logs_ret].
    apply logs_bind; [apply logs_ext|intros now].
    destruct (_ || _); [apply logs_restore_power_procedures|].
    apply logs_bind; [apply logs_set_power_outage_start|intros].
    apply logs_set_shutdown_initiated.
  - apply logs_bind; [apply logs_get_self|intros self].
    apply logs_bind.
    + destruct (power_outage_start self); [apply logs_ret|].
      apply logs_bind; [apply logs_ext|intros now].
      apply logs_bind; [apply logs_set_power_outage_start|intros; apply logs_ret].
    + intros start. apply logs_bind; [apply logs_ext|intros now].
      apply logs_execute_shutdown_sequence.
Qed.

Lemma logs_run k : logs (spares_critical cfg) (run cfg k).
Proof.
  induction k as [|k IH]; simpl; [apply logs_ret|].
  apply logs_bind; [apply logs_run_once|done].
Qed.

Lemma logs_new_events {A} P (m : M W A) s :
  logs P m -> Forall P (new_events s (exec m s)).
Proof.
  intros Hm. destruct (Hm s) as (evs & T & F). unfold exec.
  by rewrite (new_events_app _ _ _ T).
Qed.

(** C3. No actuator method is ever called with the name of the critical
    node: not by the shutdown sequence at any elapsed time, not by the
    recovery, and not by any number of passes of the monitoring loop. *)
Theorem critical_node_never_actuated :
  (∀ elapsed (s : Sys W),
     Forall (λ ev, ev_node ev ≠ critical_node cfg)
       (new_events s (exec (execute_shutdown_sequence cfg elapsed) s))) ∧
  (∀ s : Sys W,
     Forall (λ ev, ev_node ev ≠ critical_node cfg)
       (new_events s (exec (restore_power_procedures cfg) s))) ∧
  (∀ k (s : Sys W),
     Forall (λ ev, ev_node ev ≠ critical_node cfg)
       (new_events s (exec (run cfg k) s))).
Proof.
  split; [|split]; intros; apply (logs_new_events (spares_critical cfg));
    auto using logs_execute_shutdown_sequence, logs_restore_power_procedures, logs_run.
Qed.


(** C7. Whatever the listing and the uncordon calls return, recovery leaves
    the monitor in its initial state (no outage start, shutdown not
    initiated, no node shut down), and it calls nothing but uncordon, at
    most once per listed node: a failed uncordon is not repeated. *)
Theorem recovery_resets_and_does_not_retry (s : Sys W) :
  let s' := exec (restore_power_procedures cfg) s in
  let listed := default [] (list_node (sleep 60 (world s))).1 in
  pm s' = initial_monitor ∧
  Forall (λ ev, ev_action ev = Uncordon) (new_events s s') ∧
  (ev_node <$> new_events s s') `sublist_of` (node_name <$> listed).
Proof.
  intros s' listed.
  destruct (restore_power_procedures_stepped cfg s) as (Hpm & evs & T & Hc).
  fold s' in Hpm, T. rewrite (new_events_app _ _ _ T).
  apply uncordon_calls in Hc as [Ha Hn]. repeat split; [done..|].
  rewrite Hn. apply fmap_sublist, sublist_filter.
Qed.

(** When power is back and an outage was in progress, one pass of the loop
    leaves the monitor as it was before the outage. *)
Lemma run_once_power_restored (s : Sys W) start :
  is_power_available cfg (http_get_state (world s)).1 = true ->
  power_outage_start (pm s) = Some start ->
  pm (exec (run_once cfg) s) = initial_monitor.
Proof.
  intros Hav Hstart. unfold exec, run_once, get_power_status.
  unfold mbind at 1, M_bind at 1, ext at 1.
  destruct (http_get_state (world s)) as [sensor_data w1]. simpl in Hav. rewrite Hav.
  unfold mbind at 1, M_bind at 1, mbind at 1, M_bind at 1, get_self at 1.
  cbn [pm]. rewrite Hstart.
  unfold mbind at 1, M_bind at 1, ext at 1. cbn [world].
  destruct (clock_now w1) as [now w2].
  cbn [pm world trace].
  destruct (shutdown_initiated (pm s) || _) eqn:E.
  - set (s0 := {| pm := pm s; world := w2; trace := trace s |}).
    destruct (restore_power_procedures_stepped cfg s0) as (Hpm & _).
    unfold exec in Hpm. destruct (restore_power_procedures cfg s0) as [[] s1].
    by unfold ext.
  - apply orb_false_iff in E as [_ E%bool_decide_eq_false].
    assert (nodes_shutdown (pm s) = ∅) as Hsd by by destruct (decide (nodes_shutdown (pm s) = ∅)).
    run_monad. unfold initial_monitor. by rewrite Hsd.
Qed.

End Loop.

(** ** The loop during an outage *)

Section LoopAndPolls.

Context {W : Type} `{World W}.
Variable cfg : Config.

(** While the outage lasts, one pass of the loop is one poll at the elapsed
    time the clock gives, followed by the sleep. *)
Lemma run_once_power_out (s : Sys W) start sensor_data w1 now w2 :
  http_get_state (world s) = (sensor_data, w1) ->
  is_power_available cfg sensor_data = false ->
  power_outage_start (pm s) = Some start ->
  clock_now w1 = (now, w2) ->
  exec (run_once cfg) s =
  let s' := poll cfg (total_seconds now start, w2) s in
  with_world (sleep (poll_interval cfg) (world s')) s'.
Proof.
  intros Hget Hav Hstart Hnow. unfold exec, run_once, get_power_status, poll, exec.
  unfold mbind at 1, M_bind at 1, ext at 1. rewrite Hget, Hav.
  unfold mbind at 1, M_bind at 1, mbind at 1, M_bind at 1, get_self at 1.
  cbn [pm world trace]. rewrite Hstart.
  unfold mbind at 1, M_bind at 1, mret at 1, M_ret at 1.
  unfold mbind at 1, M_bind at 1, ext at 1. cbn [pm world trace]. rewrite Hnow.
  unfold with_world at 2. cbn [fst snd].
  by destruct (execute_shutdown_sequence cfg _ _) as [[] s1].
Qed.

(** The pass that detects the outage records its start and polls at once. *)
Lemma run_once_outage_onset (s : Sys W) sensor_data w1 start w2 now w3 :
  http_get_state (world s) = (sensor_data, w1) ->
  is_power_available cfg sensor_data = false ->
  power_outage_start (pm s) = None ->
  clock_now w1 = (start, w2) -> clock_now w2 = (now, w3) ->
  exec (run_once cfg) s =
  let s0 := {| pm := {| power_outage_start := Some start;
                        shutdown_initiated := shutdown_initiated (pm s);
                        nodes_shutdown := nodes_shutdown (pm s) |};
               world := w2; trace := trace s |} in
  let s' := poll cfg (total_seconds now start, w3) s0 in
  with_world (sleep (poll_interval cfg) (world s')) s'.
Proof.
  intros Hget Hav Hstart Hnow1 Hnow2.
  unfold exec, run_once, get_power_status, poll, exec.
  unfold mbind at 1, M_bind at 1, ext at 1. rewrite Hget, Hav.
  unfold mbind at 1, M_bind at 1, mbind at 1, M_bind at 1, get_self at 1.
  cbn [pm world trace]. rewrite Hstart.
  unfold mbind at 1, M_bind at 1, mbind at 1, M_bind at 1, ext at 1.
  cbn [pm world trace]. rewrite Hnow1.
  unfold mbind at 1, M_bind at 1, set_power_outage_start, mbind at 1, M_bind at 1,
    get_self at 1, set_self at 1, mret at 1, M_ret at 1.
  cbn [pm world trace].
  unfold mbind at 1, M_bind at 1, ext at 1. cbn [pm world trace]. rewrite Hnow2.
  unfold with_world at 2. cbn [fst snd pm world trace].
  by destruct (execute_shutdown_sequence cfg _ _) as [[] s1].
Qed.

(** With power present and no outage in progress a pass of the loop leaves
    the monitor alone. *)
Lemma run_once_power_ok (s : Sys W) :
  is_power_available cfg (http_get_state (world s)).1 = true ->
  power_outage_start (pm s) = None ->
  pm (exec (run_once cfg) s) = pm s ∧ trace (exec (run_once cfg) s) = trace s.
Proof.
  intros Hav Hstart. unfold exec.
  destruct (run_once cfg s) as [[] s'] eqn:E. simpl.
  unfold run_once, get_power_status in E.
  unfold mbind at 1, M_bind at 1, ext at 1 in E.
  destruct (http_get_state (world s)) as [sensor_data w1]. simpl in Hav.
  rewrite Hav in E.
  unfold mbind at 1, M_bind at 1, mbind at 1, M_bind at 1, get_self at 1 in E.
  cbn [pm] in E. rewrite Hstart in E. by injection E as <-.
Qed.

Lemma poll_start (p : Q * W) (s : Sys W) :
  power_outage_start (pm (poll cfg p s)) = power_outage_start (pm s).
Proof.
  by destruct (execute_shutdown_sequence_stepped cfg p.1 (with_world p.2 s))
    as (evs & _ & S & _).
Qed.



End LoopAndPolls.

(** ** The monitor on the simulated cluster *)

(** Scenario A of the specification: cordoned at 45 s, shut down at 200 s. *)
Example scenario_a :
  trace (epoch default_config [(45 : Q, Sim.healthy); (200 : Q, Sim.healthy)]
           (outage_onset 0 Sim.healthy)) =
  [Ev Cordon "pi5-01" true; Ev Drain "pi5-01" true; Ev PowerOff "pi5-01" true].
Proof. reflexivity. Qed.

(** Scenario C of the specification: power comes back at 90 s, after
    [pi5-01] has been cordoned and drained; the node is ready, is
    uncordoned once, and the monitor is back in its initial state. *)
Example scenario_c :
  let s := epoch default_config [(65 : Q, Sim.healthy)] (outage_onset 0 Sim.healthy) in
  let s' := exec (run_once default_config) (with_world (Sim.power_back (world s)) s) in
  trace s = [Ev Cordon "pi5-01" true; Ev Drain "pi5-01" true] ∧
  new_events s s' = [Ev Uncordon "pi5-01" true] ∧
  pm s' = initial_monitor.
Proof. by repeat split. Qed.

(** A drain that fails does not hold back the power-off. *)
Example power_off_after_failed_drain :
  trace (epoch default_config [(200 : Q, Sim.failing 2)] (outage_onset 0 Sim.healthy)) =
  [Ev Cordon "pi5-01" false; Ev Drain "pi5-01" false; Ev PowerOff "pi5-01" true].
Proof. reflexivity. Qed.

(** C1, as the specification states it, fails for drain: the drain that
    succeeded at 60 s is called again at 75 s. *)
Lemma drain_fires_again : ¬ fires_once (W:=Sim.state) default_config Drain.
Proof.
  intros Hc.
  apply (Hc 0 Sim.healthy [] (60 : Q, Sim.healthy) [(75 : Q, Sim.healthy)] "pi5-01" true);
    compute_done.
Qed.

Lemma successful_power_off_fires_once_witness :
  let s1 := epoch default_config [] (outage_onset 0 Sim.healthy) in
  let s2 := poll default_config (200 : Q, Sim.healthy) s1 in
  let s3 := epoch default_config [(215 : Q, Sim.healthy); (230 : Q, Sim.healthy)] s2 in
  Ev PowerOff "pi5-01" true ∈ new_events s1 s2 ∧
  Ev PowerOff "pi5-01" true ∉ new_events s2 s3.
Proof.
  split; [compute_done|].
  apply (successful_power_off_fires_once default_config 0 Sim.healthy []
           (200 : Q, Sim.healthy) [(215 : Q, Sim.healthy); (230 : Q, Sim.healthy)]
           PowerOff "pi5-01" true); [compute_done|by left].
Defined.

(** C2, as the specification states it, fails for the cordon of the
    priority tier: the cordon that failed at 35 s is not attempted at 50 s. *)
Lemma failed_cordon_not_retried :
  ¬ retried_after_failure (W:=Sim.state) default_config Phase1.
Proof.
  intros Hc.
  destruct (Hc 0 Sim.healthy [] (35 : Q, Sim.failing 1) (50 : Q, Sim.healthy)
              Cordon "pi5-01") as [ok Hin]; try compute_done.
  vm_compute in Hin. by apply elem_of_nil in Hin.
Qed.

Lemma due_transition_attempted_witness :
  let s := poll default_config (65 : Q, Sim.failing 2) (outage_onset 0 Sim.healthy) in
  let s' := exec (execute_shutdown_sequence default_config 80) (with_world Sim.healthy s) in
  Ev Drain "pi5-01" false ∈ trace s ∧
  ((∃ ok, Ev Drain "pi5-01" ok ∈ new_events (with_world Sim.healthy s) s') ∨
   Ev PowerOff "pi5-01" true ∈ new_events (with_world Sim.healthy s) s').
Proof.
  split; [compute_done|].
  apply (due_transition_attempted default_config Phase2 Drain "pi5-01" 80).
  - done.
  - compute_done.
  - split; compute_done.
  - compute_done.
  - reflexivity.
Defined.




Lemma power_off_recorded_whatever_exit_status_witness :
  let r := shutdown_node default_config "pi5-01" (outage_onset 0 Sim.ssh_fails) in
  ssh_shutdown (ssh_key_path default_config) "jarrodservilla@10.0.0.3" Sim.ssh_fails
    = (Some 255, Sim.ssh_fails) ∧
  r.1 = true ∧ "pi5-01" ∈ nodes_shutdown (pm r.2) ∧
  ∀ ps, ∀ ok, Ev PowerOff "pi5-01" ok ∉ new_events r.2 (epoch default_config ps r.2).
Proof.
  intros r. split; [reflexivity|].
  destruct (power_off_recorded_whatever_exit_status default_config "pi5-01"
              (outage_onset 0 Sim.ssh_fails) (Sim.node "pi5-01" "10.0.0.3" true false)
              "10.0.0.3" 255 Sim.ssh_fails Sim.ssh_fails) as (R1 & R2 & _ & R4);
    try reflexivity; [done|].
  split; [exact R1|]. split; [exact R2|]. intros ps. apply R4.
Defined.

(** ** Tier order *)

Lemma tiered_mono cfg off off' evs :
  off ⊆ off' -> tiered cfg off evs -> tiered cfg off' evs.
Proof.
  revert off off'. induction evs as [|ev evs IH]; intros off off' Hsub; cbn [tiered]; [done|].
  intros [Hev Hrest]. split; [intros Hn m Hm; apply Hsub; auto|].
  eapply IH; [|done]. set_solver.
Qed.

Lemma tiered_app cfg off e1 e2 :
  tiered cfg off (e1 ++ e2) ↔
  tiered cfg off e1 ∧ tiered cfg (called PowerOff e1 ∪ off) e2.
Proof.
  revert off. induction e1 as [|ev e1 IH]; intros off.
  - cbn [app tiered]. replace (called PowerOff [] ∪ off) with off by set_solver. tauto.
  - cbn [app tiered]. rewrite IH.
    change (ev :: e1) with ([ev] ++ e1). rewrite (called_app PowerOff [ev] e1).
    replace (called PowerOff e1 ∪ (called PowerOff [ev] ∪ off))
      with (called PowerOff [ev] ∪ called PowerOff e1 ∪ off) by set_solver.
    tauto.
Qed.

(** Calls on priority nodes are in order whatever came before. *)
Lemma tiered_priority cfg off evs :
  Forall (λ ev, ev_node ev ∈ (PyStr.strip <$> priority_shutdown_nodes cfg)) evs ->
  tiered cfg off evs.
Proof.
  intros Hall. revert off. induction Hall as [|ev evs Hev _ IH]; intros off; [done|].
  split; [done|apply IH].
Qed.

(** Once power-off has been called on every tracked priority node, all
    calls are in order. *)
Lemma tiered_done cfg off evs :
  (∀ m, tracked cfg Phase3 m -> m ∈ off) -> tiered cfg off evs.
Proof.
  revert off. induction evs as [|ev evs IH]; intros off Hoff; [done|].
  split; [auto|]. apply IH. set_solver.
Qed.

Lemma tiered_lookup cfg off evs i ev m :
  tiered cfg off evs -> evs !! i = Some ev ->
  ev_node ev ∉ (PyStr.strip <$> priority_shutdown_nodes cfg) ->
  tracked cfg Phase3 m ->
  m ∈ off ∨ ∃ j ok, (j < i)%nat ∧ evs !! j = Some (Ev PowerOff m ok).
Proof.
  revert off i. induction evs as [|ev' evs IH]; intros off i; [done|].
  destruct i as [|i]; simpl.
  - intros [Hev _] [= ->] Hn Hm. left. auto.
  - intros [_ Hrest] Hi Hn Hm.
    destruct (IH _ _ Hrest Hi Hn Hm) as [Hin|(j & ok & Hj & Hl)].
    + apply elem_of_union in Hin as [Hin|Hin]; [|by left].
      apply elem_of_called in Hin as [ok Hin]. apply list_elem_of_singleton in Hin.
      right. exists 0%nat, ok. split; [lia|]. by rewrite <- Hin.
    + right. exists (S j), ok. split; [lia|done].
Qed.

Lemma phase_events_priority cfg ph b sd evs :
  roster cfg ph = priority_shutdown_nodes cfg ->
  phase_events cfg ph b sd evs ->
  Forall (λ ev, ev_node ev ∈ (PyStr.strip <$> priority_shutdown_nodes cfg)) evs.
Proof.
  intros Hr He. apply Forall_forall. intros ev Hin.
  destruct (phase_events_elem _ _ _ _ _ _ He Hin) as (_ & _ & _ & Hn & _).
  by rewrite Hr in Hn.
Qed.

Section Tiers.

Variable cfg : Config.
Hypothesis priority_before_secondary_cordon : shutdown_pi5_01_delay cfg <= 300.
Hypothesis priority_before_secondary_shutdown :
  shutdown_pi5_01_delay cfg <= shutdown_others_delay cfg.

Lemma poll_events_tiered e init sd evs off :
  poll_events cfg e init sd evs -> sd ⊆ off -> tiered cfg off evs.
Proof.
  intros (e1 & e2 & e3 & e4 & e5 & -> & P1 & P2 & P3 & P4 & P5) Hsd.
  unfold phase_due in P1, P2, P3, P4, P5. cbn [threshold] in P3, P4, P5.
  assert (reached (shutdown_pi5_01_delay cfg) e = true ->
          ∀ m, tracked cfg Phase3 m -> m ∈ called PowerOff (e1 ++ e2 ++ e3) ∪ off)
    as Hcov.
  { intros R m Hm. rewrite R in P3.
    destruct (decide (m ∈ replay sd (e1 ++ e2))) as [Hin|Hout].
    - apply replay_elem in Hin as [?|Hin]; [set_solver|].
      apply elem_of_union_l, elem_of_called. exists true.
      rewrite (assoc_L (++)). apply elem_of_app. by left.
    - apply elem_of_union_l. rewrite (assoc_L (++)), called_app.
      apply elem_of_union_r.
      eapply (phase_events_covers cfg Phase3); [exact P3|apply list_elem_of_here|exact Hm|by intros _]. }
  apply tiered_app. split; [by eapply tiered_priority, (phase_events_priority cfg Phase1)|].
  apply tiered_app. split; [by eapply tiered_priority, (phase_events_priority cfg Phase2)|].
  apply tiered_app. split; [by eapply tiered_priority, (phase_events_priority cfg Phase3)|].
  apply tiered_app. split.
  - destruct (reached 300 e) eqn:R; [|by rewrite P4].
    apply tiered_done. intros m Hm.
    assert (reached (shutdown_pi5_01_delay cfg) e = true) as R3
      by (eapply reached_mono; [|exact R]; done).
    specialize (Hcov R3 m Hm). rewrite !called_app in Hcov. set_solver.
  - destruct (reached (shutdown_others_delay cfg) e) eqn:R; [|by rewrite P5].
    apply tiered_done. intros m Hm.
    assert (reached (shutdown_pi5_01_delay cfg) e = true) as R3
      by (eapply reached_mono; [|exact R]; done).
    specialize (Hcov R3 m Hm). rewrite !called_app in Hcov. set_solver.
Qed.

Lemma replay_called sd evs : replay sd evs ⊆ called PowerOff evs ∪ sd.
Proof.
  intros n [?|Hin]%replay_elem; [set_solver|].
  apply elem_of_union_l, elem_of_called. by exists true.
Qed.

Lemma epoch_events_tiered es init sd evs off :
  epoch_events cfg es init sd evs -> sd ⊆ off -> tiered cfg off evs.
Proof.
  revert init sd evs off. induction es as [|e es IH]; intros init sd evs off; simpl.
  - by intros ->.
  - intros (e1 & e2 & -> & P1 & P2) Hsd. apply tiered_app.
    split; [by eapply poll_events_tiered|].
    eapply IH; [done|]. pose proof (replay_called sd e1). set_solver.
Qed.

End Tiers.

Section TierTheorem.

Context {W : Type} `{World W}.
Variable cfg : Config.

(** X1. The priority tier goes first. When the delay of the priority tier
    is at most 300 s and at most the delay of the secondary tier, then in
    every outage a method is called on a node outside the priority roster
    only after power-off has been called on every tracked node of the
    priority roster. *)
Theorem priority_tier_goes_first start (w : W) ps :
  shutdown_pi5_01_delay cfg <= 300 ->
  shutdown_pi5_01_delay cfg <= shutdown_others_delay cfg ->
  priority_first cfg (trace (epoch cfg ps (outage_onset start w))).
Proof.
  intros H1 H2.
  destruct (epoch_stepped cfg ps (outage_onset start w)) as (evs & T & _ & _ & P).
  simpl in T, P. rewrite T.
  pose proof (epoch_events_tiered cfg H1 H2 _ _ _ _ ∅ P ltac:(done)) as Ht.
  intros i ev Hi Hn m Hm.
  by destruct (tiered_lookup _ _ _ _ _ _ Ht Hi Hn Hm) as [?%not_elem_of_empty|?].
Qed.

End TierTheorem.

Lemma priority_tier_goes_first_witness :
  shutdown_pi5_01_delay default_config <= 300 ∧
  priority_first default_config
    (trace (epoch default_config
              [(45 : Q, Sim.healthy); (200 : Q, Sim.failing 1); (310 : Q, Sim.healthy);
               (430 : Q, Sim.healthy)]
              (outage_onset 0 Sim.healthy))).
Proof.
  split; [simpl; lia|]. apply priority_tier_goes_first; simpl; lia.
Defined.

(** ** Polls that do nothing *)

Lemma reached_false t e : reached t e = false ↔ (e < inject_Z t)%Q.
Proof.
  unfold reached. rewrite <- not_true_iff_false, Qle_bool_iff.
  split; [apply Qnot_le_lt|apply Qlt_not_le].
Qed.

Section Quiet.

Context {W : Type} `{World W}.
Variable cfg : Config.

(** A loop whose every entry is skipped leaves the state as it is. *)
Lemma sweep_loop_skips (guarded : bool) acts l (s : Sys W) :
  (∀ x, x ∈ l ->
     String.eqb (PyStr.strip x) (critical_node cfg)
     || (guarded && bool_decide (PyStr.strip x ∈ nodes_shutdown (pm s))) = true) ->
  sweep_loop cfg guarded acts l s = (tt, s).
Proof.
  unfold sweep_loop. induction l as [|x l IH]; intros Hall; [done|].
  cbn [for_each]. unfold mbind at 1, M_bind at 1, mbind at 1, M_bind at 1, get_self at 1.
  assert (x ∈ x :: l) as Hx by left. apply Hall in Hx.
  rewrite Hx. unfold mret at 1, M_ret at 1. apply IH.
  intros y Hy. apply Hall. by right.
Qed.

(** X2. Before the first threshold nothing happens: at an elapsed time
    below 30 s and below both configured delays, the shutdown sequence
    returns with the monitor, the outside world and the call log as they
    were. *)
Theorem nothing_happens_before_the_first_threshold e (s : Sys W) :
  (e < 30)%Q ->
  (e < inject_Z (shutdown_pi5_01_delay cfg))%Q ->
  (e < inject_Z (shutdown_others_delay cfg))%Q ->
  execute_shutdown_sequence cfg e s = (tt, s).
Proof.
  intros H30 H3 H5.
  assert (reached 30 e = false) as R1 by by apply reached_false.
  assert (reached 60 e = false) as R2.
  { apply not_true_iff_false. intros R. apply (reached_mono 60 30) in R; [|lia]. congruence. }
  assert (reached 300 e = false) as R4.
  { apply not_true_iff_false. intros R. apply (reached_mono 300 30) in R; [|lia]. congruence. }
  apply reached_false in H3, H5.
  rewrite execute_shutdown_sequence_phases. unfold phase_due, threshold.
  unfold mbind at 1, M_bind at 1, get_self at 1.
  by rewrite R1, R2, R4, H3, H5.
Qed.

(** X3. When the shutdown has been initiated and every entry of the two
    rosters names the critical node or a node already marked shut down,
    the shutdown sequence does nothing at any elapsed time: no collaborator
    is called, nothing is logged and the monitor is unchanged. *)
Theorem nothing_left_to_do e (s : Sys W) :
  shutdown_initiated (pm s) = true ->
  Forall (λ x, PyStr.strip x = critical_node cfg ∨
               PyStr.strip x ∈ nodes_shutdown (pm s))
    (priority_shutdown_nodes cfg ++ secondary_shutdown_nodes cfg) ->
  execute_shutdown_sequence cfg e s = (tt, s).
Proof.
  intros Hinit Hall. rewrite Forall_forall in Hall.
  assert (∀ ph b, when b (phase_loop cfg ph) s = (tt, s) ∨ ph = Phase1) as Hph.
  { intros ph [|]; [|by left]. destruct ph; [by right|left..];
      apply (sweep_loop_skips true); intros x Hx;
      (destruct (Hall x) as [->|Hsd];
        [apply elem_of_app; simpl in Hx; auto
        |by rewrite String.eqb_refl
        |by rewrite (bool_decide_eq_true_2 _ Hsd), orb_true_r]). }
  rewrite execute_shutdown_sequence_phases.
  unfold mbind at 1, M_bind at 1, get_self at 1. rewrite Hinit.
  assert (phase_due cfg Phase1 e true = false) as -> by apply andb_false_r.
  cbn [when].
  unfold mbind at 1, M_bind at 1, mret at 1, M_ret at 1.
  unfold mbind at 1, M_bind at 1.
  destruct (Hph Phase2 (phase_due cfg Phase2 e true)) as [->|?]; [|done].
  unfold mbind at 1, M_bind at 1.
  destruct (Hph Phase3 (phase_due cfg Phase3 e true)) as [->|?]; [|done].
  unfold mbind at 1, M_bind at 1.
  destruct (Hph Phase4 (phase_due cfg Phase4 e true)) as [->|?]; [|done].
  by destruct (Hph Phase5 (phase_due cfg Phase5 e true)) as [->|?].
Qed.

End Quiet.

(** ** Dry run and skipped shutdowns *)

Section Modes.

Context {W : Type} `{World W}.
Variable cfg : Config.

Lemma maintains_ret {A} (R : relation (Sys W)) `{!Reflexive R} (a : A) :
  maintains R (mret a).
Proof. intros s. simpl. reflexivity. Qed.

Lemma maintains_bind {A B} (R : relation (Sys W)) `{!Transitive R}
    (m : M W A) (f : A -> M W B) :
  maintains R m -> (∀ a, maintains R (f a)) -> maintains R (m ≫= f).
Proof.
  intros Hm Hf s. unfold mbind, M_bind. specialize (Hm s).
  destruct (m s) as [a s1]. specialize (Hf a s1). simpl in *. by etrans.
Qed.

Lemma maintains_for_each {A} (R : relation (Sys W)) `{!PreOrder R}
    (l : list A) (body : A -> M W unit) :
  (∀ x, maintains R (body x)) -> maintains R (for_each l body).
Proof.
  intros Hb. induction l as [|x l IH]; cbn [for_each].
  - apply maintains_ret, _.
  - apply maintains_bind; [apply _|apply Hb|done].
Qed.

Lemma logs_for_each {A} P (l : list A) (body : A -> M W unit) :
  (∀ x, logs P (body x)) -> logs P (for_each l body).
Proof.
  intros Hb. induction l as [|x l IH]; cbn [for_each]; [apply logs_ret|].
  by apply logs_bind.
Qed.

Lemma logs_returns (P : event -> Prop) a n ok :
  P (Ev a n ok) -> logs (W:=W) P (returns a n ok).
Proof. intros HP s. exists [Ev a n ok]. split; [done|by constructor]. Qed.

Lemma logs_nodes_shutdown_add P n : logs (W:=W) P (nodes_shutdown_add n).
Proof. intros s. exists []. by rewrite app_nil_r. Qed.

Lemma logs_act P a n :
  (∀ ok, may_log cfg (Ev a n ok) -> P (Ev a n ok)) -> logs P (act cfg a n).
Proof.
  intros HP. destruct a; simpl.
  - unfold cordon_node. destruct (dry_run cfg) eqn:D.
    + apply logs_returns, HP. by (split; simpl; rewrite ?D, ?S).
    + apply logs_bind; [apply logs_ext|intros ok]. apply logs_returns, HP. by (split; simpl; rewrite ?D, ?S).
  - unfold uncordon_node. destruct (dry_run cfg) eqn:D.
    + apply logs_returns, HP. by (split; simpl; rewrite ?D, ?S).
    + apply logs_bind; [apply logs_ext|intros ok]. apply logs_returns, HP. by (split; simpl; rewrite ?D, ?S).
  - unfold drain_node. destruct (dry_run cfg) eqn:D.
    + apply logs_returns, HP. by (split; simpl; rewrite ?D, ?S).
    + apply logs_bind; [apply logs_ext|intros [rc|]];
        [destruct (rc =? 0)|]; apply logs_returns, HP; by (split; simpl; rewrite ?D, ?S).
  - unfold shutdown_node. destruct (dry_run cfg) eqn:D, (skip_shutdown cfg) eqn:S; simpl.
    1-3: apply logs_bind; [apply logs_nodes_shutdown_add|intros _];
         apply logs_returns, HP; by (split; simpl; rewrite ?D, ?S).
    apply logs_bind; [apply logs_ext|intros [node|]];
      [|apply logs_returns, HP; by (split; simpl; rewrite ?D, ?S)].
    destruct (internal_ip (addresses node)) as [[|c ip]|];
      try (apply logs_returns, HP; by (split; simpl; rewrite ?D, ?S)).
    apply logs_bind; [apply logs_ext|intros [rc|]];
      [|apply logs_returns, HP; by (split; simpl; rewrite ?D, ?S)].
    apply logs_bind; [apply logs_nodes_shutdown_add|intros _].
    apply logs_returns, HP; by (split; simpl; rewrite ?D, ?S).
Qed.

Lemma logs_act_all P acts n :
  (∀ ev, may_log cfg ev -> P ev) -> logs P (act_all cfg acts n).
Proof.
  intros HP. induction acts as [|a acts IH]; simpl; [apply logs_ret|].
  apply logs_bind; [apply logs_act; auto|done].
Qed.

Lemma logs_sweep_loop P guarded acts l :
  (∀ ev, may_log cfg ev -> P ev) -> logs P (sweep_loop cfg guarded acts l).
Proof.
  intros HP. apply logs_for_each. intros x.
  apply logs_bind; [apply logs_get_self|intros self].
  destruct (_ || _); [apply logs_ret|by apply logs_act_all].
Qed.

Lemma logs_phase1_loop P :
  (∀ ev, may_log cfg ev -> P ev) -> logs P (phase1_loop cfg).
Proof.
  intros HP s. rewrite phase1_loop_eq. by apply logs_sweep_loop.
Qed.

Lemma logs_when P b (m : M W unit) : logs P m -> logs P (when b m).
Proof. destruct b; [done|intros _; apply logs_ret]. Qed.

Lemma logs_modes e : logs (may_log cfg) (execute_shutdown_sequence cfg e).
Proof.
  rewrite execute_shutdown_sequence_phases.
  apply logs_bind; [apply logs_get_self|intros self].
  apply logs_bind; [|intros _].
  { apply logs_when, logs_bind; [apply logs_set_shutdown_initiated|intros _].
    by apply logs_phase1_loop. }
  repeat (apply logs_bind; [|intros _]); by apply logs_when, logs_sweep_loop.
Qed.

Global Instance same_world_preorder : PreOrder (@same_world W).
Proof. split; [done|]. intros s1 s2 s3. unfold same_world. congruence. Qed.

Lemma same_world_act a n :
  dry_run cfg = true -> maintains same_world (act cfg a n).
Proof.
  intros D s. destruct a; simpl;
    unfold cordon_node, uncordon_node, drain_node, shutdown_node; by rewrite D.
Qed.

Lemma same_world_sweep_loop guarded acts l :
  dry_run cfg = true -> maintains same_world (sweep_loop cfg guarded acts l).
Proof.
  intros D. apply maintains_for_each; [apply _|]. intros x.
  apply maintains_bind; [apply _|done|intros self].
  destruct (_ || _); [done|].
  induction acts as [|a acts IH]; simpl; [done|].
  apply maintains_bind; [apply _|by apply same_world_act|done].
Qed.

(** X4. In a dry run the shutdown sequence calls no collaborator (the
    outside world is as before) at any elapsed time, and every actuator
    call it logs returned [True]. *)
Theorem dry_run_sequence_leaves_the_world e (s : Sys W) :
  dry_run cfg = true ->
  let s' := exec (execute_shutdown_sequence cfg e) s in
  world s' = world s ∧ Forall (λ ev, ev_ok ev = true) (new_events s s').
Proof.
  intros D s'. split.
  - subst s'. revert s. change (maintains same_world (execute_shutdown_sequence cfg e)).
    rewrite execute_shutdown_sequence_phases.
    apply maintains_bind; [apply _|done|intros self].
    apply maintains_bind; [apply _| |intros _].
    { destruct (phase_due _ _ _ _); [|done]. simpl.
      apply maintains_bind; [apply _|done|intros _].
      intros s. rewrite phase1_loop_eq. by apply same_world_sweep_loop. }
    repeat (apply maintains_bind; [apply _| |intros _]);
      (destruct (phase_due _ _ _ _); [|done]); by apply same_world_sweep_loop.
  - eapply Forall_impl; [apply (logs_new_events (may_log cfg)), logs_modes|].
    intros ev [Hd _]. auto.
Qed.

(** X5. In a dry run recovery still sleeps its 60 s and lists the nodes,
    but that is all it does to the outside world: the uncordon calls are
    only logged, each as returning [True]. *)
Theorem dry_run_recovery_only_lists (s : Sys W) :
  dry_run cfg = true ->
  let s' := exec (restore_power_procedures cfg) s in
  world s' = (list_node (sleep 60 (world s))).2 ∧
  Forall (λ ev, ev_ok ev = true) (new_events s s').
Proof.
  intros D s'. subst s'. unfold exec.
  destruct (restore_power_procedures cfg s) as [[] s'] eqn:E. cbn [snd].
  unfold restore_power_procedures in E.
  unfold mbind at 1, M_bind at 1, ext at 1 in E. cbn [world pm trace] in E.
  unfold mbind at 1, M_bind at 1, mbind at 1, M_bind at 1, ext at 1 in E.
  cbn [world pm trace] in E.
  destruct (list_node (sleep 60 (world s))) as [nodes w]. cbn [snd].
  set (s0 := {| pm := pm s; world := w; trace := trace s |}) in E.
  set (loop := match nodes with Some items => _ | None => _ end) in E.
  assert (maintains same_world loop ∧ logs (λ ev, ev_ok ev = true) loop) as [Hw Hl].
  { subst loop. destruct nodes as [items|]; [|split; [done|apply logs_ret]].
    split.
    - apply maintains_for_each; [apply _|]. intros node.
      destruct (String.eqb _ _); [done|]. destruct (_ && _); [|done].
      apply maintains_bind; [apply _|apply (same_world_act Uncordon); done|done].
    - apply logs_for_each. intros node.
      destruct (String.eqb _ _); [apply logs_ret|].
      destruct (_ && _); [|apply logs_ret].
      apply logs_bind; [|intros; apply logs_ret].
      apply (logs_act _ Uncordon). intros ok [Hd _]. auto. }
  specialize (Hw s0). destruct (Hl s0) as (evs & T & F).
  destruct (loop s0) as [[] s1]. unfold same_world in Hw.
  unfold set_power_outage_start, set_shutdown_initiated, set_nodes_shutdown in E.
  unfold mbind, M_bind, get_self, set_self in E.
  injection E as <-. simpl in *.
  split; [done|]. unfold new_events. simpl. by rewrite T, drop_app_length.
Qed.

(** X6. With [dry_run] or [skip_shutdown] set, a poll at which the delay of
    a tier is met leaves every tracked node of the tier marked shut down,
    whatever the cluster and [ssh] do. *)
Theorem test_flags_mark_every_node ph n (p : Q * W) (s : Sys W) :
  dry_run cfg || skip_shutdown cfg = true ->
  ph = Phase3 ∨ ph = Phase5 ->
  reached (threshold cfg ph) p.1 = true -> tracked cfg ph n ->
  n ∈ nodes_shutdown (pm (poll cfg p s)).
Proof.
  intros Hflag Hph Hr Ht.
  destruct (poll_stepped cfg p s) as (evs & T & _ & N & P).
  rewrite N. apply replay_elem.
  destruct (decide (n ∈ nodes_shutdown (pm s))) as [?|Hsd]; [by left|right].
  destruct (poll_events_covers cfg _ _ _ _ ph PowerOff n P) as [[ok Hin]|?];
    [by destruct Hph as [-> | ->]|destruct Hph as [-> | ->]; apply list_elem_of_here
    |done..| |done].
  assert (Forall (may_log cfg) evs) as Hall.
  { pose proof (logs_new_events (may_log cfg) _ (with_world p.2 s) (logs_modes p.1)) as F.
    unfold new_events in F. cbn [with_world trace] in F.
    unfold poll in T. by rewrite T, drop_app_length in F. }
  rewrite Forall_forall in Hall. destruct (Hall _ Hin) as [Hd Hs]. simpl in *.
  apply orb_true_iff in Hflag as [D|S]; [rewrite Hd in Hin|rewrite Hs in Hin]; done.
Qed.

End Modes.

(** ** Powering a node off *)

(** [internal_ip] finds the first entry of type [InternalIP]. *)
Lemma internal_ip_first l1 ip l2 :
  "InternalIP" ∉ l1.*1 -> internal_ip (l1 ++ ("InternalIP", ip) :: l2) = Some ip.
Proof.
  induction l1 as [|[type address] l1 IH]; intros Hnot; [done|].
  rewrite fmap_cons, not_elem_of_cons in Hnot. destruct Hnot as [Hne Hnot].
  cbn [app internal_ip]. simpl in Hne.
  destruct (String.eqb_spec type "InternalIP") as [->|_]; [done|by apply IH].
Qed.

Lemma internal_ip_none l : "InternalIP" ∉ l.*1 -> internal_ip l = None.
Proof.
  induction l as [|[type address] l IH]; intros Hnot; [done|].
  rewrite fmap_cons, not_elem_of_cons in Hnot. destruct Hnot as [Hne Hnot].
  cbn [internal_ip]. simpl in Hne.
  destruct (String.eqb_spec type "InternalIP") as [->|_]; [done|by apply IH].
Qed.

Section PowerOff.

Context {W : Type} `{World W}.
Variable cfg : Config.

(** X7. Outside the test modes [shutdown_node] runs [ssh] against the
    address of the first [InternalIP] entry of the node, whatever entries
    come after it; the node is marked shut down when the command returns,
    and when it raises (a timeout, say) the call returns [False] and the
    monitor is unchanged. *)
Theorem shutdown_node_uses_first_internal_ip n (s : Sys W) node w1 l1 ip l2 :
  dry_run cfg = false -> skip_shutdown cfg = false ->
  read_node n (world s) = (Some node, w1) ->
  addresses node = l1 ++ ("InternalIP", ip) :: l2 ->
  "InternalIP" ∉ l1.*1 -> ip ≠ "" ->
  shutdown_node cfg n s =
  let '(result, w2) :=
    ssh_shutdown (ssh_key_path cfg) (ssh_user cfg +:+ "@" +:+ ip) w1 in
  let ok := match result with Some _ => true | None => false end in
  (ok, {| pm := {| power_outage_start := power_outage_start (pm s);
                   shutdown_initiated := shutdown_initiated (pm s);
                   nodes_shutdown :=
                     if ok then {[n]} ∪ nodes_shutdown (pm s)
                     else nodes_shutdown (pm s) |};
          world := w2;
          trace := trace s ++ [Ev PowerOff n ok] |}).
Proof.
  intros Hdry Hskip Hread Haddr Hfirst Hne.
  unfold shutdown_node. rewrite Hdry, Hskip. cbn [orb].
  unfold mbind at 1, M_bind at 1, ext at 1. rewrite Hread.
  rewrite Haddr, internal_ip_first by done.
  destruct ip as [|c ip]; [done|].
  unfold mbind at 1, M_bind at 1, ext at 1. cbn [world pm trace].
  destruct (ssh_shutdown _ _ w1) as [[rc|] w2]; run_monad; [done|].
  by destruct (pm s).
Qed.

(** X8. When the node cannot be read, has no [InternalIP] entry, or its
    first [InternalIP] entry has an empty address, [shutdown_node] returns
    [False] without running [ssh]: the world is as [read_node] left it and
    the node is not marked shut down. *)
Theorem node_without_address_is_not_shut_down n (s : Sys W) node w1 :
  dry_run cfg = false -> skip_shutdown cfg = false ->
  read_node n (world s) = (node, w1) ->
  match node with
  | None => True
  | Some node =>
      "InternalIP" ∉ (addresses node).*1 ∨
      ∃ l1 l2, addresses node = l1 ++ ("InternalIP", "") :: l2 ∧
               "InternalIP" ∉ l1.*1
  end ->
  shutdown_node cfg n s =
  (false, {| pm := pm s; world := w1; trace := trace s ++ [Ev PowerOff n false] |}).
Proof.
  intros Hdry Hskip Hread Hnode.
  unfold shutdown_node. rewrite Hdry, Hskip. cbn [orb].
  unfold mbind at 1, M_bind at 1, ext at 1. rewrite Hread.
  destruct node as [node|]; [|done].
  destruct Hnode as [Hnone|(l1 & l2 & -> & Hfirst)].
  - by rewrite internal_ip_none.
  - by rewrite internal_ip_first.
Qed.

End PowerOff.

(** ** The loop *)

Section Passes.

Context {W : Type} `{World W}.
Variable cfg : Config.

(** X9. A flicker needs no recovery: when power is back before the shutdown
    was initiated and before any node was shut down, the pass forgets the
    outage and sleeps until the next poll (the poll interval is not
    negative, as [time.sleep] requires). It does not wait the 60 s of
    recovery, does not list the nodes and calls no actuator. *)
Theorem short_outage_needs_no_recovery (s : Sys W) sensor_data w1 start now w2 :
  0 <= poll_interval cfg ->
  http_get_state (world s) = (sensor_data, w1) ->
  is_power_available cfg sensor_data = true ->
  power_outage_start (pm s) = Some start ->
  shutdown_initiated (pm s) = false -> nodes_shutdown (pm s) = ∅ ->
  clock_now w1 = (now, w2) ->
  exec (run_once cfg) s =
  {| pm := initial_monitor; world := sleep (poll_interval cfg) w2; trace := trace s |}.
Proof.
  intros _ Hget Hav Hstart Hinit Hsd Hnow. unfold exec, run_once, get_power_status.
  unfold mbind at 1, M_bind at 1, ext at 1. rewrite Hget, Hav.
  unfold mbind at 1, M_bind at 1, mbind at 1, M_bind at 1, get_self at 1.
  cbn [pm world trace]. rewrite Hstart.
  unfold mbind at 1, M_bind at 1, ext at 1. cbn [pm world trace]. rewrite Hnow.
  cbn [pm world trace]. rewrite Hinit, Hsd, bool_decide_eq_false_2 by (by intros ?).
  cbn [orb]. run_monad. by rewrite Hsd.
Qed.

(** X10. The start of an outage is recorded once: a pass that finds no
    power keeps a recorded start, and records the current time when there
    is none, whatever the shutdown sequence then does. *)
Theorem outage_start_is_recorded_once (s : Sys W) :
  is_power_available cfg (http_get_state (world s)).1 = false ->
  power_outage_start (pm (exec (run_once cfg) s)) =
  Some (default (clock_now (http_get_state (world s)).2).1
                (power_outage_start (pm s))).
Proof.
  intros Hav. destruct (http_get_state (world s)) as [sensor_data w1] eqn:Hget.
  simpl in *. destruct (clock_now w1) as [t w2] eqn:Hnow.
  destruct (power_outage_start (pm s)) as [start|] eqn:Hstart.
  - rewrite (run_once_power_out cfg s start sensor_data w1 t w2) by done.
    simpl. by rewrite poll_start.
  - destruct (clock_now w2) as [now w3] eqn:Hnow2.
    rewrite (run_once_outage_onset cfg s sensor_data w1 t w2 now w3) by done.
    simpl. by rewrite poll_start.
Qed.

(** The marked nodes are stripped roster entries other than the critical
    node. *)
Lemma poll_marks_tracked (p : Q * W) (s : Sys W) :
  (∀ n, n ∈ nodes_shutdown (pm s) -> tracked cfg Phase3 n ∨ tracked cfg Phase5 n) ->
  ∀ n, n ∈ nodes_shutdown (pm (poll cfg p s)) ->
       tracked cfg Phase3 n ∨ tracked cfg Phase5 n.
Proof.
  intros Hs n. destruct (poll_stepped cfg p s) as (evs & _ & _ & -> & P).
  intros [?|Hin]%replay_elem; [auto|].
  destruct (poll_events_elem _ _ _ _ _ _ P Hin) as (ph & _ & Ha & Hc & Hr & _).
  simpl in *. destruct ph; simpl in Ha;
    try (by apply list_elem_of_singleton in Ha); [|set_solver|];
    [left|right]; by split.
Qed.

Lemma run_once_marks_tracked (s : Sys W) :
  (∀ n, n ∈ nodes_shutdown (pm s) -> tracked cfg Phase3 n ∨ tracked cfg Phase5 n) ->
  ∀ n, n ∈ nodes_shutdown (pm (exec (run_once cfg) s)) ->
       tracked cfg Phase3 n ∨ tracked cfg Phase5 n.
Proof.
  intros Hs.
  destruct (is_power_available cfg (http_get_state (world s)).1) eqn:Hav,
           (power_outage_start (pm s)) as [start|] eqn:Hstart.
  - rewrite (run_once_power_restored cfg s start) by done. set_solver.
  - by destruct (run_once_power_ok cfg s Hav Hstart) as [-> _].
  - destruct (http_get_state (world s)) as [sensor_data w1] eqn:Hget.
    destruct (clock_now w1) as [now w2] eqn:Hnow.
    rewrite (run_once_power_out cfg s start sensor_data w1 now w2) by done.
    by apply poll_marks_tracked.
  - destruct (http_get_state (world s)) as [sensor_data w1] eqn:Hget.
    destruct (clock_now w1) as [start w2] eqn:Hnow1.
    destruct (clock_now w2) as [now w3] eqn:Hnow2.
    rewrite (run_once_outage_onset cfg s sensor_data w1 start w2 now w3) by done.
    by apply poll_marks_tracked.
Qed.

(** X11. However long the monitor runs, [nodes_shutdown] holds only nodes
    it acts on: stripped entries of the two rosters, never the critical
    node. *)
Theorem only_roster_nodes_are_marked k (w : W) n :
  n ∈ nodes_shutdown (pm (exec (run cfg k) (fresh w))) ->
  n ∈ (PyStr.strip <$> (priority_shutdown_nodes cfg ++ secondary_shutdown_nodes cfg)) ∧
  n ≠ critical_node cfg.
Proof.
  assert (∀ s : Sys W,
    (∀ n, n ∈ nodes_shutdown (pm s) -> tracked cfg Phase3 n ∨ tracked cfg Phase5 n) ->
    ∀ n, n ∈ nodes_shutdown (pm (exec (run cfg k) s)) ->
         tracked cfg Phase3 n ∨ tracked cfg Phase5 n) as Hrun.
  { induction k as [|k IH]; intros s Hs; [done|].
    unfold exec in *. simpl. unfold mbind, M_bind.
    pose proof (run_once_marks_tracked s Hs) as H1. unfold exec in H1.
    destruct (run_once cfg s) as [[] s1]. by apply IH. }
  intros Hin. apply Hrun in Hin; [|set_solver].
  rewrite fmap_app, elem_of_app. unfold tracked in Hin. simpl in Hin. tauto.
Qed.

Lemma logs_never_uncordons e :
  logs (λ ev, ev_action ev ≠ Uncordon) (execute_shutdown_sequence (W:=W) cfg e).
Proof.
  intros s. destruct (execute_shutdown_sequence_stepped cfg e s) as (evs & T & _ & _ & _ & P).
  exists evs. split; [done|]. apply Forall_forall. intros ev Hin.
  destruct (poll_events_elem _ _ _ _ _ _ P Hin) as (ph & _ & Ha & _).
  intros E. rewrite E in Ha. destruct ph; set_solver.
Qed.

Lemma run_once_keeps_an_outage (s : Sys W) :
  is_power_available cfg (http_get_state (world s)).1 = false ->
  is_Some (power_outage_start (pm (exec (run_once cfg) s))).
Proof.
  intros Hav. destruct (http_get_state (world s)) as [sensor_data w1] eqn:Hget.
  simpl in *. destruct (clock_now w1) as [t w2] eqn:Hnow.
  destruct (power_outage_start (pm s)) as [start|] eqn:Hstart.
  - rewrite (run_once_power_out cfg s start sensor_data w1 t w2) by done.
    simpl. rewrite poll_start. simpl. by rewrite Hstart.
  - destruct (clock_now w2) as [now w3] eqn:Hnow2.
    rewrite (run_once_outage_onset cfg s sensor_data w1 t w2 now w3) by done.
    simpl. by rewrite poll_start.
Qed.

(** X12. With [test_mode] set to [simulate_outage] the monitor never
    recovers: every pass is a pass of an outage, so after the first pass an
    outage start is always recorded, and uncordon is never called. *)
Theorem simulated_outage_never_recovers k (s : Sys W) :
  test_mode cfg = "simulate_outage" ->
  let s' := exec (run cfg (S k)) s in
  is_Some (power_outage_start (pm s')) ∧
  Forall (λ ev, ev_action ev ≠ Uncordon) (new_events s s').
Proof.
  intros Hmode s'.
  assert (∀ sensor_data, is_power_available cfg sensor_data = false) as Hav.
  { intros sensor_data. unfold is_power_available. by rewrite Hmode. }
  split.
  - subst s'. revert s. induction k as [|k IH]; intros s.
    + unfold exec. simpl. unfold mbind, M_bind.
      pose proof (run_once_keeps_an_outage s (Hav _)) as E. unfold exec in E.
      by destruct (run_once cfg s) as [[] s1].
    + unfold exec in *. change (run cfg (S (S k))) with (run_once cfg ;; run cfg (S k)).
      unfold mbind at 1, M_bind at 1. destruct (run_once cfg s) as [[] s1]. apply IH.
  - apply logs_new_events. generalize (S k). intros j.
    induction j as [|j IH]; simpl; [apply logs_ret|].
    apply logs_bind; [|done]. unfold run_once, get_power_status.
    apply logs_bind; [apply logs_ext|intros sensor_data]. rewrite Hav.
    apply logs_bind; [|intros; apply logs_ext].
    apply logs_bind; [apply logs_get_self|intros self].
    apply logs_bind.
    + destruct (power_outage_start self); [apply logs_ret|].
      apply logs_bind; [apply logs_ext|intros now].
      apply logs_bind; [apply logs_set_power_outage_start|intros; apply logs_ret].
    + intros start. apply logs_bind; [apply logs_ext|intros now].
      apply logs_never_uncordons.
Qed.

End Passes.

(** ** Start-up *)

Lemma split_nonempty sep s : PyStr.split sep s ≠ [].
Proof.
  destruct s as [|c s]; [done|]. simpl.
  destruct (Ascii.eqb c sep); [done|]. by destruct (PyStr.split sep s).
Qed.

Lemma join_split sep s : PyStr.join sep (PyStr.split sep s) = s.
Proof.
  induction s as [|c s IH]; [done|]. cbn [PyStr.split].
  pose proof (split_nonempty sep s) as Hne.
  destruct (PyStr.split sep s) as [|piece pieces]; [done|].
  destruct (Ascii.eqb_spec c sep) as [->|_].
  - cbn [PyStr.join] in *. by rewrite IH.
  - cbn [PyStr.join] in *. destruct pieces as [|piece' pieces]; by rewrite <- IH.
Qed.

Lemma split_no_sep sep s :
  Forall (λ piece, sep ∉ list_ascii_of_string piece) (PyStr.split sep s).
Proof.
  induction s as [|c s IH]; cbn [PyStr.split].
  - constructor; [|done]. apply not_elem_of_nil.
  - destruct (Ascii.eqb_spec c sep) as [->|Hne].
    + constructor; [apply not_elem_of_nil|done].
    + destruct (PyStr.split sep s) as [|piece pieces].
      * constructor; [|done]. simpl. set_solver.
      * apply Forall_cons in IH as [Hp Hps]. constructor; [|done].
        simpl. set_solver.
Qed.

(** X13. How start-up ends. [int] raises as soon as one of the three
    durations is not an integer literal, before the token is looked at;
    otherwise the process exits with status 1 unless [HA_TOKEN] is set to a
    non-empty string and the cluster client can be built; and only then is
    the monitor started, with the token it was given. *)
Theorem startup_outcome environ in_cluster :
  let durations :=
    is_Some (PyStr.int (getenv environ "POLL_INTERVAL" "15")) ∧
    is_Some (PyStr.int (getenv environ "SHUTDOWN_PI5_01_DELAY" "180")) ∧
    is_Some (PyStr.int (getenv environ "SHUTDOWN_OTHERS_DELAY" "420")) in
  match __init__ environ in_cluster with
  | ValueError => ¬ durations
  | Exit code =>
      durations ∧ code = 1 ∧
      (environ !! "HA_TOKEN" = None ∨ environ !! "HA_TOKEN" = Some "" ∨
       in_cluster = false)
  | Started cfg ha =>
      durations ∧ in_cluster = true ∧
      environ !! "HA_TOKEN" = Some (ha_token ha) ∧ ha_token ha ≠ ""
  end.
Proof.
  unfold __init__.
  destruct (PyStr.int (getenv environ "POLL_INTERVAL" "15")) as [i1|];
    [|by intros (?%is_Some_None & _)].
  destruct (PyStr.int (getenv environ "SHUTDOWN_PI5_01_DELAY" "180")) as [i2|];
    [|by intros (_ & ?%is_Some_None & _)].
  destruct (PyStr.int (getenv environ "SHUTDOWN_OTHERS_DELAY" "420")) as [i3|];
    [|by intros (_ & _ & ?%is_Some_None)].
  destruct (environ !! "HA_TOKEN") as [[|c token]|]; [|destruct in_cluster|]; simpl;
    repeat split; eauto.
Qed.

(** X14. The rosters are the comma-separated pieces of [PRIORITY_NODES]
    and [SECONDARY_NODES], kept as written: joined with commas they give
    the variables back, no entry contains a comma, and a roster is never
    empty. *)
Theorem rosters_are_the_pieces_of_the_variables environ in_cluster cfg ha :
  __init__ environ in_cluster = Started cfg ha ->
  PyStr.join "," (priority_shutdown_nodes cfg) =
    getenv environ "PRIORITY_NODES" "pi5-01" ∧
  PyStr.join "," (secondary_shutdown_nodes cfg) =
    getenv environ "SECONDARY_NODES" "pi4-01,pi5-02" ∧
  Forall (λ node, ","%char ∉ list_ascii_of_string node)
    (priority_shutdown_nodes cfg ++ secondary_shutdown_nodes cfg) ∧
  priority_shutdown_nodes cfg ≠ [] ∧ secondary_shutdown_nodes cfg ≠ [].
Proof.
  unfold __init__. intros Hinit.
  destruct (PyStr.int _) as [i1|]; [|done].
  destruct (PyStr.int _) as [i2|]; [|done].
  destruct (PyStr.int _) as [i3|]; [|done].
  destruct (environ !! "HA_TOKEN") as [[|c token]|]; [done| |done].
  destruct in_cluster; [|done]. injection Hinit as <- _. cbn [priority_shutdown_nodes
    secondary_shutdown_nodes].
  split; [apply join_split|]. split; [apply join_split|].
  split; [apply Forall_app; split; apply split_no_sep|].
  split; apply split_nonempty.
Qed.

Lemma getenv_unset environ name fallback :
  environ !! name = None -> getenv environ name fallback = fallback.
Proof. unfold getenv. by intros ->. Qed.

(** X15. With none of the optional variables set, the monitor starts with
    the default configuration, whatever else the environment holds. *)
Theorem unset_variables_give_the_defaults environ token :
  environ !! "HA_TOKEN" = Some token -> token ≠ "" ->
  Forall (λ name, environ !! name = None)
    ["HA_URL"; "POWER_SENSOR"; "POLL_INTERVAL"; "SHUTDOWN_PI5_01_DELAY";
     "SHUTDOWN_OTHERS_DELAY"; "CRITICAL_NODE"; "PRIORITY_NODES"; "SECONDARY_NODES";
     "SSH_USER"; "SSH_KEY_PATH"; "DRY_RUN"; "TEST_MODE"; "SKIP_SHUTDOWN"] ->
  __init__ environ true =
  Started default_config
    {| ha_url := "http://localhost:8123"; ha_token := token;
       power_sensor := "sensor.smart_plug_power" |}.
Proof.
  intros Htoken Hne Hunset. rewrite !Forall_cons in Hunset.
  destruct Hunset as (U1 & U2 & U3 & U4 & U5 & U6 & U7 & U8 & U9 & U10 & U11 & U12 & U13 & _).
  unfold __init__.
  rewrite (getenv_unset _ _ _ U1), (getenv_unset _ _ _ U2), (getenv_unset _ _ _ U3),
    (getenv_unset _ _ _ U4), (getenv_unset _ _ _ U5), (getenv_unset _ _ _ U6),
    (getenv_unset _ _ _ U7), (getenv_unset _ _ _ U8), (getenv_unset _ _ _ U9),
    (getenv_unset _ _ _ U10), (getenv_unset _ _ _ U11), (getenv_unset _ _ _ U12),
    (getenv_unset _ _ _ U13), Htoken.
  destruct token as [|c token]; [done|]. reflexivity.
Qed.

Section Rosters.

Context {W : Type} `{World W}.

(** X16. An empty roster variable does not give an empty roster: the one
    entry is the empty string, and unless that is the name of the critical
    node the monitor cordons the node of that name when the outage has
    lasted 30 s. *)
Theorem empty_roster_variable_names_one_node environ in_cluster cfg ha e (s : Sys W) :
  __init__ environ in_cluster = Started cfg ha ->
  environ !! "PRIORITY_NODES" = Some "" ->
  critical_node cfg ≠ "" ->
  reached 30 e = true -> shutdown_initiated (pm s) = false ->
  priority_shutdown_nodes cfg = [""] ∧
  ∃ ok, Ev Cordon "" ok ∈ new_events s (exec (execute_shutdown_sequence cfg e) s).
Proof.
  intros Hinit Hvar Hcrit Hr Hi.
  assert (priority_shutdown_nodes cfg = [""]) as Hroster.
  { unfold __init__ in Hinit.
    destruct (PyStr.int _) as [i1|]; [|done].
    destruct (PyStr.int _) as [i2|]; [|done].
    destruct (PyStr.int _) as [i3|]; [|done].
    destruct (environ !! "HA_TOKEN") as [[|c token]|]; [done| |done].
    destruct in_cluster; [|done]. injection Hinit as <- _.
    cbn [priority_shutdown_nodes]. unfold getenv. by rewrite Hvar. }
  split; [done|].
  destruct (execute_shutdown_sequence_stepped cfg e s) as (evs & T & _ & _ & _ & P).
  rewrite (new_events_app _ _ _ T).
  destruct P as (e1 & e2 & e3 & e4 & e5 & -> & P1 & _).
  unfold phase_due, threshold in P1. rewrite Hr, Hi in P1.
  assert ("" ∈ called Cordon e1) as [ok Hin]%elem_of_called.
  { eapply (phase_events_covers cfg Phase1); [exact P1|apply list_elem_of_here| |done].
    split; [|done]. cbn [roster]. rewrite Hroster. set_solver. }
  exists ok. apply elem_of_app. by left.
Qed.


End Rosters.

(** ** Names and white space *)

Lemma lstrip_head s :
  PyStr.lstrip s = "" ∨
  ∃ c s', PyStr.lstrip s = String c s' ∧ PyStr.isspace c = false.
Proof.
  induction s as [|c s IH]; [by left|]. cbn [PyStr.lstrip].
  destruct (PyStr.isspace c) eqn:E; [done|]. right. eauto.
Qed.

Lemma rstrip_head c s :
  PyStr.isspace c = false -> ∃ r, PyStr.rstrip (String c s) = String c r.
Proof.
  intros E. cbn [PyStr.rstrip]. destruct (PyStr.rstrip s); rewrite ?E; eauto.
Qed.

Lemma rstrip_idemp s : PyStr.rstrip (PyStr.rstrip s) = PyStr.rstrip s.
Proof.
  induction s as [|c s IH]; [done|]. cbn [PyStr.rstrip].
  destruct (PyStr.rstrip s) as [|d r] eqn:E.
  - destruct (PyStr.isspace c) eqn:Ec; [done|]. cbn [PyStr.rstrip]. by rewrite Ec.
  - change (PyStr.rstrip (String c (String d r))) with
      (match PyStr.rstrip (String d r) with
       | "" => if PyStr.isspace c then "" else String c ""
       | r' => String c r'
       end).
    by rewrite IH.
Qed.

(** [strip] is idempotent: a stripped name has no white space at its ends. *)
Lemma strip_idemp s : PyStr.strip (PyStr.strip s) = PyStr.strip s.
Proof.
  unfold PyStr.strip. destruct (lstrip_head s) as [->|(c & s' & -> & E)]; [done|].
  destruct (rstrip_head c s' E) as [r Hr]. rewrite Hr at 1.
  cbn [PyStr.lstrip]. rewrite E, <- Hr. apply rstrip_idemp.
Qed.

Section Names.

Context {W : Type} `{World W}.
Variable cfg : Config.

(** X18. Roster entries are stripped of white space before they are
    compared with the critical node, the critical name itself is not. So
    when [critical_node] is written with white space around it, no roster
    entry is ever taken for the critical node: at a poll at which a phase
    is entered, its methods are called on every roster entry that is not
    marked shut down. *)
Theorem padded_critical_name_matches_no_entry ph a x e (s : Sys W) :
  PyStr.strip (critical_node cfg) ≠ critical_node cfg ->
  x ∈ roster cfg ph -> a ∈ phase_acts ph ->
  phase_due cfg ph e (shutdown_initiated (pm s)) = true ->
  PyStr.strip x ∉ nodes_shutdown (pm s) ->
  let s' := exec (execute_shutdown_sequence cfg e) s in
  (∃ ok, Ev a (PyStr.strip x) ok ∈ new_events s s') ∨
  Ev PowerOff (PyStr.strip x) true ∈ new_events s s'.
Proof.
  intros Hpad Hx Ha Hdue Hsd s'.
  destruct (execute_shutdown_sequence_stepped cfg e s) as (evs & T & _ & _ & _ & P).
  fold s' in T. rewrite (new_events_app _ _ _ T).
  eapply poll_events_covers; [exact P|exact Hdue|exact Ha| |exact Hsd].
  split; [by apply list_elem_of_fmap_2|].
  intros E. apply Hpad. by rewrite <- E, strip_idemp.
Qed.

End Names.

(** ** The properties at work in the simulated cluster *)

Lemma nothing_happens_before_the_first_threshold_witness :
  execute_shutdown_sequence default_config 12 (outage_onset 0 (Sim.failing 0)) =
  (tt, outage_onset 0 (Sim.failing 0)).
Proof.
  by apply (nothing_happens_before_the_first_threshold default_config 12).
Defined.

Lemma nothing_left_to_do_witness :
  let s := {| pm := {| power_outage_start := Some 0;
                       shutdown_initiated := true;
                       nodes_shutdown := {["pi5-01"; "pi4-01"; "pi5-02"]} |};
              world := Sim.failing 0; trace := [] |} in
  execute_shutdown_sequence default_config 600 s = (tt, s).
Proof.
  intros s. apply (nothing_left_to_do default_config 600 s); [done|].
  repeat constructor; right; compute_done.
Defined.

Lemma dry_run_sequence_leaves_the_world_witness :
  let cfg := with_modes true false default_config in
  let s := outage_onset 0 (Sim.failing 0) in
  let s' := exec (execute_shutdown_sequence cfg 500) s in
  world s' = world s ∧ Forall (λ ev, ev_ok ev = true) (new_events s s').
Proof.
  intros cfg s. by apply (dry_run_sequence_leaves_the_world cfg 500 s).
Defined.

Lemma dry_run_recovery_only_lists_witness :
  let cfg := with_modes true false default_config in
  let s := outage_onset 0 Sim.after_outage in
  let s' := exec (restore_power_procedures cfg) s in
  world s' = (list_node (sleep 60 (world s))).2 ∧
  Forall (λ ev, ev_ok ev = true) (new_events s s').
Proof.
  intros cfg s. by apply (dry_run_recovery_only_lists cfg s).
Defined.

Lemma test_flags_mark_every_node_witness :
  "pi5-01" ∈ nodes_shutdown
    (pm (poll (with_modes false true default_config) (200 : Q, Sim.ssh_fails)
           (outage_onset 0 Sim.ssh_fails))).
Proof.
  apply (test_flags_mark_every_node (with_modes false true default_config) Phase3);
    [done|by left|done|].
  split; [compute_done|done].
Defined.

Lemma shutdown_node_uses_first_internal_ip_witness :
  shutdown_node default_config "pi5-01" (outage_onset 0 (Sim.failing 0)) =
  (true, {| pm := {| power_outage_start := Some 0;
                     shutdown_initiated := false;
                     nodes_shutdown := {["pi5-01"]} ∪ ∅ |};
            world := Sim.failing 0;
            trace := [Ev PowerOff "pi5-01" true] |}).
Proof.
  assert ("InternalIP" ∉ [("Hostname", "pi5-01")].*1) as Hfirst by set_solver.
  exact (shutdown_node_uses_first_internal_ip default_config "pi5-01"
           (outage_onset 0 (Sim.failing 0))
           (Sim.node "pi5-01" "10.0.0.3" true false) (Sim.failing 0)
           [("Hostname", "pi5-01")] "10.0.0.3" []
           eq_refl eq_refl eq_refl eq_refl Hfirst ltac:(done)).
Defined.

Lemma node_without_address_is_not_shut_down_witness :
  shutdown_node default_config "pi5-03" (outage_onset 0 (Sim.failing 0)) =
  (false, {| pm := pm (outage_onset 0 (Sim.failing 0));
             world := Sim.failing 0;
             trace := [Ev PowerOff "pi5-03" false] |}).
Proof.
  by apply (node_without_address_is_not_shut_down default_config "pi5-03"
              (outage_onset 0 (Sim.failing 0)) None).
Defined.

Lemma short_outage_needs_no_recovery_witness :
  exec (run_once default_config) (outage_onset 0 Sim.healthy) =
  {| pm := initial_monitor; world := sleep 15 Sim.healthy; trace := [] |}.
Proof.
  by apply (short_outage_needs_no_recovery default_config
              (outage_onset 0 Sim.healthy) (Some {["state" := "4.2"]})
              Sim.healthy 0 0 Sim.healthy).
Defined.

Lemma outage_start_is_recorded_once_witness :
  power_outage_start (pm (exec (run_once default_config) (fresh (Sim.failing 0)))) =
  Some 0.
Proof.
  exact (outage_start_is_recorded_once default_config (fresh (Sim.failing 0)) eq_refl).
Defined.

Lemma only_roster_nodes_are_marked_witness :
  "pi5-01" ∈ (PyStr.strip <$> (["pi5-01"] ++ ["pi4-01"; "pi5-02"])) ∧
  "pi5-01" ≠ "pi4-02".
Proof.
  apply (only_roster_nodes_are_marked default_config 13 (Sim.failing 0) "pi5-01").
  vm_compute. set_solver.
Defined.


Lemma simulated_outage_never_recovers_witness :
  let cfg := with_test_mode "simulate_outage" default_config in
  let s' := exec (run cfg 3) (fresh Sim.healthy) in
  is_Some (power_outage_start (pm s')) ∧
  Forall (λ ev, ev_action ev ≠ Uncordon) (new_events (fresh Sim.healthy) s').
Proof.
  intros cfg. by apply (simulated_outage_never_recovers cfg 2 (fresh Sim.healthy)).
Defined.

Lemma rosters_are_the_pieces_of_the_variables_witness :
  let environ : gmap string string :=
    {["HA_TOKEN" := "secret"; "PRIORITY_NODES" := "pi5-01, pi5-03"]} in
  ∃ cfg ha,
    __init__ environ true = Started cfg ha ∧
    PyStr.join "," (priority_shutdown_nodes cfg) = "pi5-01, pi5-03" ∧
    PyStr.join "," (secondary_shutdown_nodes cfg) = "pi4-01,pi5-02" ∧
    Forall (λ node, ","%char ∉ list_ascii_of_string node)
      (priority_shutdown_nodes cfg ++ secondary_shutdown_nodes cfg) ∧
    priority_shutdown_nodes cfg ≠ [] ∧ secondary_shutdown_nodes cfg ≠ [].
Proof.
  intros environ. eexists _, _.
  assert (∀ cfg ha (E : __init__ environ true = Started cfg ha),
            __init__ environ true = Started cfg ha ∧ _) as Hw
    by (intros cfg ha E; split;
          [exact E|exact (rosters_are_the_pieces_of_the_variables environ true cfg ha E)]).
  apply Hw. vm_compute. reflexivity.
Defined.

Lemma unset_variables_give_the_defaults_witness :
  __init__ {["HA_TOKEN" := "secret"; "HOME" := "/root"]} true =
  Started default_config
    {| ha_url := "http://localhost:8123"; ha_token := "secret";
       power_sensor := "sensor.smart_plug_power" |}.
Proof.
  apply (unset_variables_give_the_defaults
           {["HA_TOKEN" := "secret"; "HOME" := "/root"]} "secret"); [done..|].
  repeat constructor.
Defined.

Lemma empty_roster_variable_names_one_node_witness :
  let environ : gmap string string :=
    {["HA_TOKEN" := "secret"; "PRIORITY_NODES" := ""]} in
  ∃ cfg ha,
    __init__ environ true = Started cfg ha ∧
    priority_shutdown_nodes cfg = [""] ∧
    ∃ ok, Ev Cordon "" ok ∈
      new_events (outage_onset 0 (Sim.failing 0))
        (exec (execute_shutdown_sequence cfg 45) (outage_onset 0 (Sim.failing 0))).
Proof.
  intros environ. eexists _, _.
  assert (∀ cfg ha (E : __init__ environ true = Started cfg ha)
            (C : critical_node cfg ≠ ""),
            __init__ environ true = Started cfg ha ∧ _) as Hw
    by (intros cfg ha E C; split;
          [exact E
          |exact (empty_roster_variable_names_one_node environ true cfg ha 45
                    (outage_onset 0 (Sim.failing 0)) E eq_refl C eq_refl eq_refl)]).
  apply Hw; [vm_compute; reflexivity|done].
Defined.

Lemma padded_critical_name_matches_no_entry_witness :
  let cfg := with_critical_node " pi4-02"
               (with_delays 180 420
                  {| poll_interval := 15; shutdown_pi5_01_delay := 180;
                     shutdown_others_delay := 420; critical_node := "pi4-02";
                     priority_shutdown_nodes := ["pi5-01"];
                     secondary_shutdown_nodes := ["pi4-01"; "pi4-02"];
                     ssh_user := "jarrodservilla"; ssh_key_path := "/root/.ssh/id_rsa";
                     dry_run := false; test_mode := "none"; skip_shutdown := false |}) in
  let s := outage_onset 0 (Sim.failing 0) in
  let s' := exec (execute_shutdown_sequence cfg 430) s in
  (∃ ok, Ev PowerOff "pi4-02" ok ∈ new_events s s') ∨
  Ev PowerOff "pi4-02" true ∈ new_events s s'.
Proof.
  intros cfg s.
  apply (padded_critical_name_matches_no_entry cfg Phase5 PowerOff "pi4-02" 430 s);
    [done|set_solver|set_solver|done|done].
Defined.
